(** * Code Rivals: the lobby / match engine of [routes/lobby.js] and the
    inactivity monitor of [server.js], as a shallow embedding.

    Conventions of the embedding.
    - A JavaScript [Number] that the code only ever uses as an integer
      (lives, scores, ratings, tokens, indices, milliseconds) is a [Z].
    - A JavaScript string is a [string]; the embedding is exact on strings
      of ASCII characters ([JS.ascii_only]), on which [toLowerCase] and
      [trim] are the functions below.
    - The two MongoDB collections are a [gmap] from the user id to the
      [User] document ([User.findById]) and a [list] of [Lobby] documents
      in natural order ([Lobby.findOne] returns the first match).  An id
      looked up with [User.findById] is the id of a user, as the tokens
      issued at login carry it: the string of an ObjectId, whether or not
      a document is stored under it.
    - Every route handler is a function from the world before the request
      to the world after it and an [Outcome]: the HTTP response, or [Hang]
      when the handler never returns.  Handlers run one at a time.
    - [server.js] and [routes/lobby.js] require each other.  What each of
      them gets from the other is computed in [Wiring]; a handler takes the
      constant it uses ([io] in the routes, [Lobby] in the monitor) as a
      [Binding], and a use of an undefined constant throws into the
      [catch] block around it.
    - [Math.random] and [Date.now] are explicit arguments.
    - A request body carries every field the route reads, with the type
      the schema gives it.  What is broadcast to clients is modelled for
      the inactivity monitor only; of a broadcast in a route, only whether
      it throws is modelled. *)

From Stdlib Require Import ZArith List String Ascii Bool Lia Permutation.
From stdpp Require Import base gmap strings list pretty.
Import ListNotations.

Open Scope string_scope.
Open Scope list_scope.
Open Scope Z_scope.

(** ** JavaScript strings *)

Module JS.

(** The strings on which the embedding is exact: every character is in the
    ASCII range. *)
Definition ascii_only (s : string) : bool :=
  forallb (fun c => (nat_of_ascii c <? 128)%nat) (list_ascii_of_string s).

Definition lower_ascii (c : ascii) : ascii :=
  let n := nat_of_ascii c in
  if ((65 <=? n)%nat && (n <=? 90)%nat)%bool then ascii_of_nat (n + 32) else c.

(** [s.toLowerCase()], for an ASCII string: the letters A to Z are folded. *)
Fixpoint toLowerCase (s : string) : string :=
  match s with
  | EmptyString => EmptyString
  | String c r => String (lower_ascii c) (toLowerCase r)
  end.

(** [s.startsWith(p)] *)
Definition startsWith (s p : string) : bool := String.prefix p s.

(** [s.includes(sub)] *)
Fixpoint includes (s sub : string) : bool :=
  if String.prefix sub s then true
  else match s with
       | EmptyString => false
       | String _ r => includes r sub
       end.

(** [s.replace(/-/g, '_')] *)
Fixpoint replace_dashes (s : string) : string :=
  match s with
  | EmptyString => EmptyString
  | String c r =>
      String (if Ascii.eqb c "-"%char then "_"%char else c) (replace_dashes r)
  end.

(** The white space and line terminators of the ASCII range: space, tab,
    line feed, vertical tab, form feed, carriage return. *)
Definition is_space (c : ascii) : bool :=
  let n := nat_of_ascii c in
  ((n =? 32)%nat || ((9 <=? n)%nat && (n <=? 13)%nat))%bool.

Fixpoint trimStart (s : string) : string :=
  match s with
  | EmptyString => EmptyString
  | String c r => if is_space c then trimStart r else s
  end.

Fixpoint trimEnd (s : string) : string :=
  match s with
  | EmptyString => EmptyString
  | String c r =>
      match trimEnd r with
      | EmptyString => if is_space c then EmptyString else String c EmptyString
      | r' => String c r'
      end
  end.

(** [s.trim()], for an ASCII string. *)
Definition trim (s : string) : string := trimEnd (trimStart s).

(** [arr[i]] for a numeric index: [undefined] outside the array. *)
Definition index {A} (arr : list A) (i : Z) : option A :=
  if i <? 0 then None else arr !! Z.to_nat i.

(** [arr.length] *)
Definition len {A} (arr : list A) : Z := Z.of_nat (length arr).

End JS.

(** ** How the files are wired together *)

(** A constant obtained by destructuring what [require] returns: the
    object exported under that name, or [undefined]. *)
Inductive Binding := Bound | Undefined.

Module Wiring.

Inductive File := server_js | routes_lobby_js.

Definition file_eqb (f g : File) : bool :=
  match f, g with
  | server_js, server_js | routes_lobby_js, routes_lobby_js => true
  | _, _ => false
  end.

(** The top-level statements that require the other file or write
    [module.exports]. *)
Inductive Stmt :=
| Require (f : File)                        (* const x = require(f) *)
| RequireField (name : string) (f : File)   (* const { name } = require(f) *)
| ExportField (name : string)               (* module.exports.name = ... *)
| ExportObject (names : list string).       (* module.exports = an object with these properties *)

(** In source order.  The router that [routes/lobby.js] exports on its last
    line has no property [Lobby]. *)
Definition top_level (f : File) : list Stmt :=
  match f with
  | server_js =>
      [ Require routes_lobby_js;               (* server.js, line 10 *)
        RequireField "Lobby" routes_lobby_js;  (* line 12 *)
        ExportField "io" ]                     (* line 33 *)
  | routes_lobby_js =>
      [ RequireField "io" server_js;           (* routes/lobby.js, line 6 *)
        ExportField "Lobby";                   (* line 60 *)
        ExportObject [] ]                      (* last line *)
  end.

(** The module cache (files loaded or being loaded), the properties
    [module.exports] of each file has at this point, and the constants
    bound so far. *)
Record Loader := {
  cached : list File;
  exports_of : File -> list string;
  bindings : list (File * string * Binding)
}.

Definition set_exports (f : File) (names : list string) (st : Loader) : Loader :=
  {| cached := cached st;
     exports_of := fun g => if file_eqb g f then names else exports_of st g;
     bindings := bindings st |}.

(** [const { name } = exported] in file [f], where [exported] is what
    [require(from)] returned: the exports of [from] as they are now. *)
Definition bind (f : File) (name : string) (from : File) (st : Loader) : Loader :=
  {| cached := cached st; exports_of := exports_of st;
     bindings :=
       bindings st ++
       [(f, name,
         if existsb (String.eqb name) (exports_of st from) then Bound else Undefined)] |}.

(** [require(f)]: a file in the cache is not run again, even when it has
    not finished loading; any other file is entered in the cache and its
    top level is run.  [fuel] bounds the nesting of [require] calls. *)
Fixpoint load (fuel : nat) (f : File) (st : Loader) : Loader :=
  match fuel with
  | O => st
  | S fuel' =>
      if existsb (file_eqb f) (cached st) then st
      else
        fold_left
          (fun st s =>
             match s with
             | Require g => load fuel' g st
             | RequireField name g => bind f name g (load fuel' g st)
             | ExportField name => set_exports f (exports_of st f ++ [name]) st
             | ExportObject names => set_exports f names st
             end)
          (top_level f)
          {| cached := f :: cached st; exports_of := exports_of st;
             bindings := bindings st |}
  end.

(** [node server.js] *)
Definition boot : Loader :=
  load 3 server_js {| cached := []; exports_of := fun _ => []; bindings := [] |}.

(** The value of the constant [name] of file [f] once the server is up. *)
Definition constant (f : File) (name : string) : Binding :=
  match List.find (fun b => (file_eqb (fst (fst b)) f && String.eqb (snd (fst b)) name)%bool)
                  (bindings boot) with
  | Some b => snd b
  | None => Undefined
  end.

(** [io] in [routes/lobby.js] *)
Definition io : Binding := constant routes_lobby_js "io".

(** [Lobby] in [server.js] *)
Definition LobbyModel : Binding := constant server_js "Lobby".

End Wiring.

(** ** Data model (the Mongoose schemas) *)

Inductive PlayerType := human | bot.

Definition is_human (t : PlayerType) : bool :=
  match t with human => true | bot => false end.

Record Card := { card_id : string; card_name : string }.

(** [playerInLobbySchema] *)
Record Player := {
  p_id : string;
  p_name : string;
  p_isReady : bool;
  p_type : PlayerType;
  p_elo : Z;
  p_casualPoints : Z;
  p_lives : Z;
  p_currentRoundScore : Z;
  p_roundCorrectAnswers : Z;
  p_roundTotalAnswers : Z;
  p_cards : list Card;
  p_shields : Z;
  p_goldenDefenseUsed : bool
}.

(** [chatMessageSchema] *)
Record ChatMessage := {
  senderId : string;
  senderName : string;
  message : string;
  timestamp : Z
}.

Record Question := { q : string; a : string; hint : option string }.

(** [lobbySchema] *)
Record Lobby := {
  lobbyId : string;
  l_name : string;
  l_type : string;
  hostId : string;
  players : list Player;
  maxPlayers : Z;
  gameStarted : bool;
  chatMessages : list ChatMessage;
  isRanked : bool;
  isCustom : bool;
  isFrenzyMode : bool;
  initialLives : Z;
  questionTimer : Z;
  playerCycles : Z;
  currentQuestionIndex : Z;
  currentPlayerIndex : Z;
  questions : list Question
}.

(** [userSchema] of [models/User.js]; the password hash and the
    per-stage accuracy map play no part in the handlers below. *)
Record User := {
  username : string;
  u_elo : Z;
  u_casualPoints : Z;
  rankedCorrectAnswers : Z;
  rankedTotalAnswers : Z;
  casualCorrectAnswers : Z;
  casualTotalAnswers : Z;
  soloStage : Z;
  tokens : Z;
  inventory : list string;
  equippedTitle : string;
  warningCount : Z;
  penaltyEndTime : option Z
}.

Record World := {
  users : gmap string User;
  lobbies : list Lobby
}.

(** The allowed values of [type] in [lobbySchema]. *)
Definition lobby_types : list string :=
  [ "free-for-all-qna"; "1v1-fill-in-blanks"; "solo-coding-challenge";
    "ranked-free-for-all-qna"; "ranked-1v1-fill-in-blanks";
    "custom-qna"; "custom-fill-in-blanks" ].

Definition originalQuestions : list Question :=
  [ {| q := "What is the output of: cout << 2 + 2;"; a := "4"; hint := None |};
    {| q := "Which keyword is used for constant?"; a := "const"; hint := None |};
    {| q := "How many bytes is an int?"; a := "4"; hint := None |};
    {| q := "C++ pointer access operator?"; a := "->"; hint := None |};
    {| q := "Declare a pointer to int"; a := "int* ptr;"; hint := None |} ].

(** The double quotes inside two of the question texts are written as
    single quotes here; the texts are never inspected by the server. *)
Definition fillInBlanksQuestions : list Question :=
  [ {| q := "int main() { cout << 'Hello, ___'; return 0; }"; a := "world";
       hint := Some "Common greeting" |};
    {| q := "int ___ = 10;"; a := "x"; hint := Some "A common variable name" |};
    {| q := "for (int i = 0; i < ___; i++)"; a := "10";
       hint := Some "A typical loop limit" |};
    {| q := "class MyClass { public: MyClass() { /* constructor */ } };";
       a := "MyClass"; hint := Some "Name of the class" |};
    {| q := "std::string ___ = 'C++';"; a := "language";
       hint := Some "What is C++?" |} ].

(** The catalog; hands hold the id and the name only. *)
Definition abilityCards : list Card :=
  [ {| card_id := "card_copy"; card_name := "Copy" |};
    {| card_id := "card_control"; card_name := "Control" |};
    {| card_id := "card_golden_defense"; card_name := "Golden Defense" |};
    {| card_id := "card_meta_vision"; card_name := "Meta Vision" |};
    {| card_id := "card_evolved_meta_vision"; card_name := "Evolved Meta Vision" |} ].

(** ** Responses *)

Inductive Body :=
| Msg (msg : string)
| Text (s : string)
| LobbyDoc (l : Lobby)
| MsgLobby (msg : string) (l : Lobby)
| ReadyStatus (msg : string) (playerReady : bool)
| Purchase (msg : string) (newTokens : Z) (newInventory : list string)
           (newEquippedTitle : string).

Record Response := { status : Z; body : Body }.

(** What a request comes to: a response, or no response at all. *)
Inductive Outcome :=
| Returned (r : Response)
| Hang.

Definition reply (code : Z) (b : Body) : Outcome :=
  Returned {| status := code; body := b |}.

(** The [catch] block shared by all routes. *)
Definition server_error : Outcome := reply 500 (Text "Server error").

(** [io.emit(...)] or [io.to(room).emit(...)] in a route, followed by the
    rest of the handler [rest]: with [io] undefined the call throws a
    TypeError, which the [catch] block of the route answers. *)
Definition emit_then (io : Binding) (rest : Outcome) : Outcome :=
  match io with
  | Bound => rest
  | Undefined => server_error
  end.

(** ** Field updates *)

Definition set_players (ps : list Player) (l : Lobby) : Lobby :=
  {| lobbyId := lobbyId l; l_name := l_name l; l_type := l_type l;
     hostId := hostId l; players := ps; maxPlayers := maxPlayers l;
     gameStarted := gameStarted l; chatMessages := chatMessages l;
     isRanked := isRanked l; isCustom := isCustom l;
     isFrenzyMode := isFrenzyMode l; initialLives := initialLives l;
     questionTimer := questionTimer l; playerCycles := playerCycles l;
     currentQuestionIndex := currentQuestionIndex l;
     currentPlayerIndex := currentPlayerIndex l; questions := questions l |}.

Definition set_hostId (h : string) (l : Lobby) : Lobby :=
  {| lobbyId := lobbyId l; l_name := l_name l; l_type := l_type l;
     hostId := h; players := players l; maxPlayers := maxPlayers l;
     gameStarted := gameStarted l; chatMessages := chatMessages l;
     isRanked := isRanked l; isCustom := isCustom l;
     isFrenzyMode := isFrenzyMode l; initialLives := initialLives l;
     questionTimer := questionTimer l; playerCycles := playerCycles l;
     currentQuestionIndex := currentQuestionIndex l;
     currentPlayerIndex := currentPlayerIndex l; questions := questions l |}.

Definition set_gameStarted (b : bool) (l : Lobby) : Lobby :=
  {| lobbyId := lobbyId l; l_name := l_name l; l_type := l_type l;
     hostId := hostId l; players := players l; maxPlayers := maxPlayers l;
     gameStarted := b; chatMessages := chatMessages l;
     isRanked := isRanked l; isCustom := isCustom l;
     isFrenzyMode := isFrenzyMode l; initialLives := initialLives l;
     questionTimer := questionTimer l; playerCycles := playerCycles l;
     currentQuestionIndex := currentQuestionIndex l;
     currentPlayerIndex := currentPlayerIndex l; questions := questions l |}.

Definition set_chatMessages (c : list ChatMessage) (l : Lobby) : Lobby :=
  {| lobbyId := lobbyId l; l_name := l_name l; l_type := l_type l;
     hostId := hostId l; players := players l; maxPlayers := maxPlayers l;
     gameStarted := gameStarted l; chatMessages := c;
     isRanked := isRanked l; isCustom := isCustom l;
     isFrenzyMode := isFrenzyMode l; initialLives := initialLives l;
     questionTimer := questionTimer l; playerCycles := playerCycles l;
     currentQuestionIndex := currentQuestionIndex l;
     currentPlayerIndex := currentPlayerIndex l; questions := questions l |}.

Definition set_playerCycles (n : Z) (l : Lobby) : Lobby :=
  {| lobbyId := lobbyId l; l_name := l_name l; l_type := l_type l;
     hostId := hostId l; players := players l; maxPlayers := maxPlayers l;
     gameStarted := gameStarted l; chatMessages := chatMessages l;
     isRanked := isRanked l; isCustom := isCustom l;
     isFrenzyMode := isFrenzyMode l; initialLives := initialLives l;
     questionTimer := questionTimer l; playerCycles := n;
     currentQuestionIndex := currentQuestionIndex l;
     currentPlayerIndex := currentPlayerIndex l; questions := questions l |}.

Definition set_currentQuestionIndex (n : Z) (l : Lobby) : Lobby :=
  {| lobbyId := lobbyId l; l_name := l_name l; l_type := l_type l;
     hostId := hostId l; players := players l; maxPlayers := maxPlayers l;
     gameStarted := gameStarted l; chatMessages := chatMessages l;
     isRanked := isRanked l; isCustom := isCustom l;
     isFrenzyMode := isFrenzyMode l; initialLives := initialLives l;
     questionTimer := questionTimer l; playerCycles := playerCycles l;
     currentQuestionIndex := n;
     currentPlayerIndex := currentPlayerIndex l; questions := questions l |}.

Definition set_currentPlayerIndex (n : Z) (l : Lobby) : Lobby :=
  {| lobbyId := lobbyId l; l_name := l_name l; l_type := l_type l;
     hostId := hostId l; players := players l; maxPlayers := maxPlayers l;
     gameStarted := gameStarted l; chatMessages := chatMessages l;
     isRanked := isRanked l; isCustom := isCustom l;
     isFrenzyMode := isFrenzyMode l; initialLives := initialLives l;
     questionTimer := questionTimer l; playerCycles := playerCycles l;
     currentQuestionIndex := currentQuestionIndex l;
     currentPlayerIndex := n; questions := questions l |}.

Definition set_questions (qs : list Question) (l : Lobby) : Lobby :=
  {| lobbyId := lobbyId l; l_name := l_name l; l_type := l_type l;
     hostId := hostId l; players := players l; maxPlayers := maxPlayers l;
     gameStarted := gameStarted l; chatMessages := chatMessages l;
     isRanked := isRanked l; isCustom := isCustom l;
     isFrenzyMode := isFrenzyMode l; initialLives := initialLives l;
     questionTimer := questionTimer l; playerCycles := playerCycles l;
     currentQuestionIndex := currentQuestionIndex l;
     currentPlayerIndex := currentPlayerIndex l; questions := qs |}.

Definition set_isReady (b : bool) (p : Player) : Player :=
  {| p_id := p_id p; p_name := p_name p; p_isReady := b; p_type := p_type p;
     p_elo := p_elo p; p_casualPoints := p_casualPoints p; p_lives := p_lives p;
     p_currentRoundScore := p_currentRoundScore p;
     p_roundCorrectAnswers := p_roundCorrectAnswers p;
     p_roundTotalAnswers := p_roundTotalAnswers p; p_cards := p_cards p;
     p_shields := p_shields p; p_goldenDefenseUsed := p_goldenDefenseUsed p |}.

Definition set_cards (cs : list Card) (p : Player) : Player :=
  {| p_id := p_id p; p_name := p_name p; p_isReady := p_isReady p;
     p_type := p_type p; p_elo := p_elo p; p_casualPoints := p_casualPoints p;
     p_lives := p_lives p; p_currentRoundScore := p_currentRoundScore p;
     p_roundCorrectAnswers := p_roundCorrectAnswers p;
     p_roundTotalAnswers := p_roundTotalAnswers p; p_cards := cs;
     p_shields := p_shields p; p_goldenDefenseUsed := p_goldenDefenseUsed p |}.

Definition set_users (us : gmap string User) (w : World) : World :=
  {| users := us; lobbies := lobbies w |}.

Definition set_lobbies (ls : list Lobby) (w : World) : World :=
  {| users := users w; lobbies := ls |}.

(** ** The lobby collection *)

Definition has_lobbyId (lid : string) (l : Lobby) : bool :=
  String.eqb (lobbyId l) lid.

(** [Lobby.findOne(query)]: the first matching document, with its position
    in the collection, which stands for the document's [_id]. *)
Fixpoint findOne (query : Lobby -> bool) (ls : list Lobby) : option (nat * Lobby) :=
  match ls with
  | [] => None
  | l :: r =>
      if query l then Some (0%nat, l)
      else match findOne query r with
           | Some (i, l') => Some (S i, l')
           | None => None
           end
  end.

(** [doc.save()] of a document loaded from position [i]. *)
Definition save (i : nat) (l : Lobby) (ls : list Lobby) : list Lobby :=
  <[i := l]> ls.

(** [Lobby.deleteOne(query)]: removes the first matching document. *)
Fixpoint deleteOne (query : Lobby -> bool) (ls : list Lobby) : list Lobby :=
  match ls with
  | [] => []
  | l :: r => if query l then r else l :: deleteOne query r
  end.

(** The [required] validator of a string path: an empty string fails it.
    Documents already in a collection passed it when they were saved. *)
Definition required (s : string) : bool := negb (String.eqb s "").

(** Validation of a new element of [players]. *)
Definition valid_player (p : Player) : bool :=
  (required (p_id p) && required (p_name p))%bool.

(** Schema validation run by [save] on a new lobby: [type] is one of the
    enumerated values, and the required strings are not empty. *)
Definition valid_new_lobby (l : Lobby) : bool :=
  (existsb (String.eqb (l_type l)) lobby_types
   && required (lobbyId l) && required (l_name l) && required (hostId l)
   && forallb valid_player (players l))%bool.

(** [newLobby.save()]: validation, then insertion under the unique index on
    [lobbyId].  [None] is the rejected save. *)
Definition insert_lobby (l : Lobby) (ls : list Lobby) : option (list Lobby) :=
  if (valid_new_lobby l && negb (existsb (has_lobbyId (lobbyId l)) ls))%bool
  then Some (ls ++ [l]) else None.

(** ** Helpers shared by the routes *)

(** [user.penaltyEndTime && new Date() < user.penaltyEndTime] *)
Definition penalized (now : Z) (u : User) : bool :=
  match penaltyEndTime u with
  | Some t => now <? t
  | None => false
  end.

(** [abilityCards[Math.floor(Math.random() * abilityCards.length)]], copied
    as [{id, name}]; [r] is the random draw. *)
Definition randomCard (r : nat) : Card :=
  nth (r mod length abilityCards) abilityCards
      {| card_id := ""; card_name := "" |}.

(** [getStartingCards()], defined alike in three routes; [k] is the number
    of draws consumed before the call. *)
Definition getStartingCards (frenzy : bool) (rand : nat -> nat) (k : nat) : list Card :=
  if negb frenzy then []
  else [ randomCard (rand k); randomCard (rand (k + 1)%nat);
         randomCard (rand (k + 2)%nat) ].

(** [generateLobbyId(prefix)]; [suffix] is the random base-36 part. *)
Definition generateLobbyId (prefix suffix : string) : string :=
  (prefix ++ "-" ++ suffix)%string.

Definition insert_at {A} (n : nat) (x : A) (l : list A) : list A :=
  firstn n l ++ x :: skipn n l.

(** [[...bank].sort(() => Math.random() - 0.5)]: a permutation of the bank
    chosen by the random draws.  Which draws give which permutation depends
    on the engine's sort; here the i-th element is inserted at a drawn
    position, which reaches every permutation. *)
Fixpoint shuffle {A} (rand : nat -> nat) (k : nat) (l : list A) : list A :=
  match l with
  | [] => []
  | x :: r =>
      let acc := shuffle rand (S k) r in
      insert_at (rand k mod S (length acc)) x acc
  end.

Definition humans (ps : list Player) : list Player :=
  List.filter (fun p => is_human (p_type p)) ps.

Definition has_id (uid : string) (p : Player) : bool := String.eqb (p_id p) uid.

(** [players.filter(p => p.id !== uid)] *)
Definition without (uid : string) (ps : list Player) : list Player :=
  List.filter (fun p => negb (has_id uid p)) ps.

(** A mutation of the object returned by [players.find(p => p.id === uid)]:
    the first player with that id is changed in place. *)
Fixpoint update_found (uid : string) (f : Player -> Player) (ps : list Player) : list Player :=
  match ps with
  | [] => []
  | p :: r => if has_id uid p then f p :: r else p :: update_found uid f r
  end.

(** ** [POST /api/lobbies]: create a lobby *)

(** The request body, with every field present and of its schema type. *)
Record CreateReq := {
  cr_name : string;
  cr_maxPlayers : Z;
  cr_type : string;
  cr_isFrenzyMode : bool;
  cr_initialLives : Z;
  cr_questionTimer : Z
}.

Definition new_human (uid uname : string) (ready : bool) (user : User)
    (lives : Z) (hand : list Card) : Player :=
  {| p_id := uid; p_name := uname; p_isReady := ready; p_type := human;
     p_elo := u_elo user; p_casualPoints := u_casualPoints user;
     p_lives := lives; p_currentRoundScore := 0; p_roundCorrectAnswers := 0;
     p_roundTotalAnswers := 0; p_cards := hand; p_shields := 0;
     p_goldenDefenseUsed := false |}.

Definition new_bot (newLobbyId : string) (i : nat) (lives : Z) (hand : list Card) : Player :=
  {| p_id := ("bot_" ++ newLobbyId ++ "_" ++ pretty i)%string;
     p_name := ("Bot_" ++ pretty i)%string;
     p_isReady := true; p_type := bot; p_elo := 0; p_casualPoints := 0;
     p_lives := lives; p_currentRoundScore := 0; p_roundCorrectAnswers := 0;
     p_roundTotalAnswers := 0; p_cards := hand; p_shields := 0;
     p_goldenDefenseUsed := false |}.

(** The document built by the route before it is saved: the host, then one
    bot for every [i] with [1 <= i < maxPlayers]. *)
Definition newLobby (hostId hostUsername : string) (user : User)
    (req : CreateReq) (suffix : string) (rand : nat -> nat) : Lobby :=
  let type := cr_type req in
  let newLobbyId := generateLobbyId (JS.replace_dashes type) suffix in
  let isRanked := JS.startsWith type "ranked-" in
  let isCustom := JS.startsWith type "custom-" in
  let hand := getStartingCards (cr_isFrenzyMode req) rand in
  let initialPlayer :=
    new_human hostId hostUsername isRanked user (cr_initialLives req) (hand 0%nat) in
  let bots :=
    map (fun i => new_bot newLobbyId i (cr_initialLives req) (hand (3 * i)%nat))
        (seq 1 (Z.to_nat (cr_maxPlayers req - 1))) in
  {| lobbyId := newLobbyId; l_name := cr_name req; l_type := type;
     hostId := hostId; players := initialPlayer :: bots;
     maxPlayers := cr_maxPlayers req; gameStarted := false;
     chatMessages := []; isRanked := isRanked; isCustom := isCustom;
     isFrenzyMode := cr_isFrenzyMode req; initialLives := cr_initialLives req;
     questionTimer := cr_questionTimer req; playerCycles := 0;
     currentQuestionIndex := 0; currentPlayerIndex := 0; questions := [] |}.

(** The lobby is saved (line 206) before [io.emit('lobbyCreated', ...)]
    (line 209). *)
Definition create_lobby (io : Binding) (w : World) (now : Z)
    (hostId hostUsername : string) (req : CreateReq) (suffix : string)
    (rand : nat -> nat) : World * Outcome :=
  match users w !! hostId with
  | None => (w, reply 404 (Msg "User not found"))
  | Some user =>
      if penalized now user then
        (w, reply 403 (Msg "You are penalized and cannot create a lobby."))
      else
        let l := newLobby hostId hostUsername user req suffix rand in
        match insert_lobby l (lobbies w) with
        | Some ls => (set_lobbies ls w, emit_then io (reply 201 (LobbyDoc l)))
        | None => (w, server_error)
        end
  end.

(** ** [POST /api/lobbies/:lobbyId/join] *)

(** A player already seated is answered before any emit (line 244); for a
    new player the lobby is saved (line 275) before the emit (line 277). *)
Definition join_lobby (io : Binding) (w : World) (now : Z)
    (lid userId username : string) (rand : nat -> nat) : World * Outcome :=
  match users w !! userId with
  | None => (w, reply 404 (Msg "User not found"))
  | Some user =>
      if penalized now user then
        (w, reply 403 (Msg "You are penalized and cannot join a lobby."))
      else
        match findOne (has_lobbyId lid) (lobbies w) with
        | None => (w, reply 404 (Msg "Lobby not found"))
        | Some (i, lobby) =>
            if ((maxPlayers lobby <=? JS.len (players lobby)) || gameStarted lobby)%bool
            then (w, reply 400 (Msg "Lobby is full or game has started"))
            else if existsb (has_id userId) (players lobby)
            then (w, reply 200 (LobbyDoc lobby))
            else
              let playerToAdd :=
                new_human userId username (isRanked lobby) user
                          (initialLives lobby)
                          (getStartingCards (isFrenzyMode lobby) rand 0) in
              let lobby' := set_players (players lobby ++ [playerToAdd]) lobby in
              if negb (valid_player playerToAdd) then (w, server_error)
              else
                (set_lobbies (save i lobby' (lobbies w)) w,
                 emit_then io (reply 200 (LobbyDoc lobby')))
        end
  end.

(** ** [POST /api/lobbies/:lobbyId/leave] *)

(** The deletion (lines 307, 319) and the save (line 325) come before the
    emits (lines 308, 320, 326). *)
Definition leave_lobby (io : Binding) (w : World) (lid userId : string)
    : World * Outcome :=
  match findOne (has_lobbyId lid) (lobbies w) with
  | None => (w, reply 404 (Msg "Lobby not found"))
  | Some (i, lobby) =>
      let initialPlayerCount := length (players lobby) in
      let lobby1 := set_players (without userId (players lobby)) lobby in
      if (length (players lobby1) =? initialPlayerCount)%nat then
        (w, reply 400 (Msg "User not found in lobby"))
      else if (length (humans (players lobby1)) =? 0)%nat then
        (set_lobbies (deleteOne (has_lobbyId lid) (lobbies w)) w,
         emit_then io (reply 200 (Msg "Lobby deleted as no human players remain")))
      else if String.eqb (hostId lobby1) userId then
        match List.find (fun p => is_human (p_type p)) (players lobby1) with
        | Some newHost =>
            let lobby2 := set_hostId (p_id newHost) lobby1 in
            (set_lobbies (save i lobby2 (lobbies w)) w,
             emit_then io (reply 200 (MsgLobby "Left lobby successfully" lobby2)))
        | None =>
            (set_lobbies (deleteOne (has_lobbyId lid) (lobbies w)) w,
             emit_then io (reply 200 (Msg "Lobby deleted as no human players remain")))
        end
      else
        (set_lobbies (save i lobby1 (lobbies w)) w,
         emit_then io (reply 200 (MsgLobby "Left lobby successfully" lobby1)))
  end.

(** ** [POST /api/lobbies/:lobbyId/ready] *)

(** The lobby is saved (line 357) before the emit (line 359). *)
Definition toggle_ready (io : Binding) (w : World) (lid userId : string)
    : World * Outcome :=
  match findOne (has_lobbyId lid) (lobbies w) with
  | None => (w, reply 404 (Msg "Lobby not found"))
  | Some (i, lobby) =>
      match List.find (has_id userId) (players lobby) with
      | None => (w, reply 400 (Msg "Player not in this lobby"))
      | Some player =>
          if isRanked lobby then
            (w, reply 400 (Msg "Players are automatically ready in ranked lobbies."))
          else
            let flip p := set_isReady (negb (p_isReady p)) p in
            let lobby' := set_players (update_found userId flip (players lobby)) lobby in
            (set_lobbies (save i lobby' (lobbies w)) w,
             emit_then io
               (reply 200 (ReadyStatus "Ready status updated" (negb (p_isReady player)))))
      end
  end.

(** ** [POST /api/lobbies/:lobbyId/start] *)

(** The object returned for player number [i] by the [map] callback. *)
Definition reset_player (lobby : Lobby) (rand : nat -> nat) (i : nat) (p : Player) : Player :=
  {| p_id := p_id p; p_name := p_name p; p_isReady := p_isReady p;
     p_type := p_type p; p_elo := p_elo p; p_casualPoints := p_casualPoints p;
     p_lives := initialLives lobby;
     p_currentRoundScore := 0;
     p_roundCorrectAnswers := 0;
     p_roundTotalAnswers := 0;
     p_cards := getStartingCards (isFrenzyMode lobby) rand (3 * i)%nat;
     p_shields := 0;
     p_goldenDefenseUsed := false |}.

Definition question_bank (type : string) : list Question :=
  if JS.includes type "qna" then originalQuestions
  else if JS.includes type "fill-in-blanks" then fillInBlanksQuestions
  else originalQuestions.

(** The lobby once the route has reset it; [deck] draws shuffle the
    question bank, [rand] draws deal the cards. *)
Definition started_lobby (lobby : Lobby) (deck rand : nat -> nat) : Lobby :=
  {| lobbyId := lobbyId lobby; l_name := l_name lobby;
     l_type := l_type lobby; hostId := hostId lobby;
     players := imap (reset_player lobby rand) (players lobby);
     maxPlayers := maxPlayers lobby;
     gameStarted := true;
     chatMessages := chatMessages lobby;
     isRanked := isRanked lobby; isCustom := isCustom lobby;
     isFrenzyMode := isFrenzyMode lobby;
     initialLives := initialLives lobby;
     questionTimer := questionTimer lobby;
     playerCycles := 0;
     currentQuestionIndex := 0;
     currentPlayerIndex := 0;
     questions := shuffle deck 0 (question_bank (l_type lobby)) |}.

(** The lobby is saved (line 431) before the emit (line 433). *)
Definition start_game (io : Binding) (w : World) (lid userId : string)
    (deck rand : nat -> nat) : World * Outcome :=
  match findOne (has_lobbyId lid) (lobbies w) with
  | None => (w, reply 404 (Msg "Lobby not found"))
  | Some (i, lobby) =>
      if negb (String.eqb (hostId lobby) userId) then
        (w, reply 403 (Msg "Only the host can start the game"))
      else if JS.len (players lobby) <? 2 then
        (w, reply 400 (Msg "Need at least 2 players to start"))
      else if negb (forallb p_isReady (players lobby)) then
        (w, reply 400 (Msg "Not all players are ready"))
      else
        let lobby' := started_lobby lobby deck rand in
        (set_lobbies (save i lobby' (lobbies w)) w,
         emit_then io (reply 200 (MsgLobby "Game started" lobby')))
  end.

(** ** [POST /api/lobbies/:lobbyId/chat] *)

(** The lobby is saved (line 595) before the emit (line 597). *)
Definition send_chat (io : Binding) (w : World) (now : Z)
    (lid userId username text : string) : World * Outcome :=
  match findOne (has_lobbyId lid) (lobbies w) with
  | None => (w, reply 404 (Msg "Lobby not found"))
  | Some (i, lobby) =>
      let chatMessage :=
        {| senderId := userId; senderName := username; message := text;
           timestamp := now |} in
      let lobby' := set_chatMessages (chatMessages lobby ++ [chatMessage]) lobby in
      (* the three strings of a chat message are required *)
      if negb (required userId && required username && required text) then
        (w, server_error)
      else
        (set_lobbies (save i lobby' (lobbies w)) w,
         emit_then io (reply 201 (Msg "Message sent")))
  end.

(** ** [POST /api/lobbies/:lobbyId/answer] *)

(** [userAnswer.toLowerCase() === currentQuestion.a.toLowerCase()] *)
Definition isCorrect (userAnswer : string) (currentQuestion : Question) : bool :=
  String.eqb (JS.toLowerCase userAnswer) (JS.toLowerCase (a currentQuestion)).

(** The guard of the Golden Defense branch. *)
Definition shield_absorbs (correct : bool) (p : Player) : bool :=
  (negb correct && (0 <? p_shields p))%bool.

Definition actualIsCorrect (correct : bool) (p : Player) : bool :=
  (correct || shield_absorbs correct p)%bool.

(** What the route does to [currentPlayerInTurn]: shield, answer counters,
    round score and lives. *)
Definition resolve_player (correct : bool) (p : Player) : Player :=
  let actual := actualIsCorrect correct p in
  {| p_id := p_id p; p_name := p_name p; p_isReady := p_isReady p;
     p_type := p_type p; p_elo := p_elo p; p_casualPoints := p_casualPoints p;
     p_lives := if actual then p_lives p else p_lives p - 1;
     p_currentRoundScore :=
       if actual then p_currentRoundScore p + 100 else p_currentRoundScore p - 50;
     p_roundCorrectAnswers :=
       if actual then p_roundCorrectAnswers p + 1 else p_roundCorrectAnswers p;
     p_roundTotalAnswers := p_roundTotalAnswers p + 1;
     p_cards := p_cards p;
     p_shields := if shield_absorbs correct p then p_shields p - 1 else p_shields p;
     p_goldenDefenseUsed := p_goldenDefenseUsed p |}.

Definition floor0 (n : Z) : Z := if n <? 0 then 0 else n.

(** The update of the global user statistics, keyed by [isCorrect]. *)
Definition update_stats (ranked correct : bool) (user : User) : User :=
  if ranked then
    {| username := username user;
       u_elo := floor0 (if correct then u_elo user + 15 else u_elo user - 10);
       u_casualPoints := u_casualPoints user;
       rankedCorrectAnswers :=
         if correct then rankedCorrectAnswers user + 1 else rankedCorrectAnswers user;
       rankedTotalAnswers := rankedTotalAnswers user + 1;
       casualCorrectAnswers := casualCorrectAnswers user;
       casualTotalAnswers := casualTotalAnswers user;
       soloStage := soloStage user; tokens := tokens user;
       inventory := inventory user; equippedTitle := equippedTitle user;
       warningCount := warningCount user; penaltyEndTime := penaltyEndTime user |}
  else
    {| username := username user;
       u_elo := u_elo user;
       u_casualPoints :=
         floor0 (if correct then u_casualPoints user + 10 else u_casualPoints user - 5);
       rankedCorrectAnswers := rankedCorrectAnswers user;
       rankedTotalAnswers := rankedTotalAnswers user;
       casualCorrectAnswers :=
         if correct then casualCorrectAnswers user + 1 else casualCorrectAnswers user;
       casualTotalAnswers := casualTotalAnswers user + 1;
       soloStage := soloStage user; tokens := tokens user;
       inventory := inventory user; equippedTitle := equippedTitle user;
       warningCount := warningCount user; penaltyEndTime := penaltyEndTime user |}.

Definition set_tokens (n : Z) (user : User) : User :=
  {| username := username user; u_elo := u_elo user;
     u_casualPoints := u_casualPoints user;
     rankedCorrectAnswers := rankedCorrectAnswers user;
     rankedTotalAnswers := rankedTotalAnswers user;
     casualCorrectAnswers := casualCorrectAnswers user;
     casualTotalAnswers := casualTotalAnswers user;
     soloStage := soloStage user; tokens := n;
     inventory := inventory user; equippedTitle := equippedTitle user;
     warningCount := warningCount user; penaltyEndTime := penaltyEndTime user |}.

(** [User.findById(id)], a change of the document, [user.save()]; nothing
    happens when there is no such user. *)
Definition update_user (uid : string) (f : User -> User) (us : gmap string User)
    : gmap string User :=
  match us !! uid with
  | Some user => <[uid := f user]> us
  | None => us
  end.

(** [tokensEarned] *)
Definition tokensEarned (lobby : Lobby) : Z :=
  100 + (if isRanked lobby then 150 else if isCustom lobby then 100 else 0).

(** The award of the game-end branch: the first human left, if any. *)
Definition award_winner (lobby : Lobby) (us : gmap string User) : gmap string User :=
  match List.find (fun p => is_human (p_type p)) (players lobby) with
  | Some winner =>
      update_user (p_id winner)
        (fun u => set_tokens (tokens u + tokensEarned lobby) u) us
  | None => us
  end.

(** The guard of the skip loop:
    [players[i] && players[i].lives <= 0]. *)
Definition eliminated_at (ps : list Player) (i : Z) : bool :=
  match JS.index ps i with
  | Some p => p_lives p <=? 0
  | None => false
  end.

(** [(i + 1) % players.length] *)
Definition next_index (ps : list Player) (i : Z) : Z :=
  Z.rem (i + 1) (JS.len ps).

(** The skip loop, run for at most [fuel] further iterations; [None] when
    the guard still holds after that. *)
Fixpoint skip_eliminated (fuel : nat) (ps : list Player) (i : Z) : option Z :=
  if eliminated_at ps i then
    match fuel with
    | O => None
    | S fuel' => skip_eliminated fuel' ps (next_index ps i)
    end
  else Some i.

(** [p.cards.push({id, name})] on every player. *)
Definition deal_to_all (c : Card) (ps : list Player) : list Player :=
  map (fun p => set_cards (p_cards p ++ [c]) p) ps.

(** The cycle counter and the frenzy card cadence. *)
Definition count_cycle (turn : Player) (rand : nat) (lobby : Lobby) : Lobby :=
  if (is_human (p_type turn)
      || (negb (is_human (p_type turn)) && negb (JS.startsWith (l_type lobby) "solo-")))%bool
  then
    let lobby1 := set_playerCycles (playerCycles lobby + 1) lobby in
    if (isFrenzyMode lobby1
        && (Z.rem (playerCycles lobby1) (JS.len (players lobby1) * 2) =? 0))%bool
    then set_players (deal_to_all (randomCard rand) (players lobby1)) lobby1
    else lobby1
  else lobby.

(** [currentQuestionIndex++], back to 0 past the end of the deck. *)
Definition next_question (lobby : Lobby) : Lobby :=
  let n := currentQuestionIndex lobby + 1 in
  set_currentQuestionIndex (if JS.len (questions lobby) <=? n then 0 else n) lobby.

(** The lobby once [currentPlayerInTurn] has been changed in place. *)
Definition answered (userId : string) (correct : bool) (lobby : Lobby) : Lobby :=
  set_players (update_found userId (resolve_player correct) (players lobby)) lobby.

(** The elimination check on the player who answered. *)
Definition eliminate (p : Player) (lobby : Lobby) : Lobby :=
  if p_lives p <=? 0
  then set_players (without (p_id p) (players lobby)) lobby
  else lobby.

(** The lobby as the game-end check sees it. *)
Definition after_answer (userId : string) (correct : bool)
    (currentPlayerInTurn : Player) (lobby : Lobby) : Lobby :=
  eliminate (resolve_player correct currentPlayerInTurn)
            (answered userId correct lobby).

(** The route from the correctness check on, for the lobby document at
    position [i].  Whatever the answer, the player is changed in memory and
    a chat line is emitted (line 469 for a shield, then line 478 or 482)
    before anything is saved: with [io] undefined the route ends there.
    Otherwise the user statistics are saved, and the lobby is saved after
    the skip loop.  The loop is run with as many further iterations as
    there are players; [skip_eliminated_hangs] below shows that a loop not
    over by then never ends. *)
Definition resolve_turn (io : Binding) (w : World) (i : nat) (lobby : Lobby)
    (userId : string) (currentPlayerInTurn : Player) (currentQuestion : Question)
    (userAnswer : string) (rand : nat) : World * Outcome :=
  let correct := isCorrect userAnswer currentQuestion in
  let resolved := resolve_player correct currentPlayerInTurn in
  match io with
  | Undefined => (w, server_error)
  | Bound =>
      let w1 :=
        set_users (update_user userId (update_stats (isRanked lobby) correct) (users w)) w in
      let lobby2 := after_answer userId correct currentPlayerInTurn lobby in
      if JS.len (humans (players lobby2)) <=? 1 then
        let lobby3 := set_gameStarted false lobby2 in
        ({| users := award_winner lobby3 (users w1);
            lobbies := save i lobby3 (lobbies w1) |},
         reply 200 (MsgLobby "Game over" lobby3))
      else
        match skip_eliminated (length (players lobby2)) (players lobby2)
                (next_index (players lobby2) (currentPlayerIndex lobby2)) with
        | None => (w1, Hang)
        | Some j =>
            let lobby3 := set_currentPlayerIndex j lobby2 in
            let lobby4 := next_question lobby3 in
            let lobby5 := count_cycle resolved rand lobby4 in
            (set_lobbies (save i lobby5 (lobbies w1)) w1,
             reply 200 (MsgLobby "Answer processed" lobby5))
        end
  end.

(** The route: the checks, then [resolve_turn]. *)
Definition submit_answer (io : Binding) (w : World) (lid userId userAnswer : string)
    (rand : nat) : World * Outcome :=
  match findOne (has_lobbyId lid) (lobbies w) with
  | None => (w, reply 400 (Msg "Game not active or lobby not found"))
  | Some (i, lobby) =>
  if negb (gameStarted lobby) then
    (w, reply 400 (Msg "Game not active or lobby not found"))
  else
  match List.find (has_id userId) (players lobby) with
  | None => (w, reply 403 (Msg "It is not your turn or you are not in this game."))
  | Some currentPlayerInTurn =>
  match JS.index (players lobby) (currentPlayerIndex lobby) with
  | None => (w, server_error)     (* reading [.id] of [undefined] *)
  | Some inTurn =>
  if negb (String.eqb (p_id currentPlayerInTurn) (p_id inTurn)) then
    (w, reply 403 (Msg "It is not your turn or you are not in this game."))
  else
  match JS.index (questions lobby) (currentQuestionIndex lobby) with
  | None => (w, server_error)     (* reading [.a] of [undefined] *)
  | Some currentQuestion =>
      resolve_turn io w i lobby userId currentPlayerInTurn currentQuestion
                   userAnswer rand
  end end end end.

(** A submission the route accepts: the lobby is in progress, the
    submitter is the player at [currentPlayerIndex], and there is a
    current question. *)
Definition in_turn (w : World) (lid userId : string) (i : nat) (lobby : Lobby)
    (currentPlayerInTurn : Player) (currentQuestion : Question) : Prop :=
  findOne (has_lobbyId lid) (lobbies w) = Some (i, lobby) /\
  gameStarted lobby = true /\
  List.find (has_id userId) (players lobby) = Some currentPlayerInTurn /\
  (exists inTurn,
     JS.index (players lobby) (currentPlayerIndex lobby) = Some inTurn /\
     p_id inTurn = p_id currentPlayerInTurn) /\
  JS.index (questions lobby) (currentQuestionIndex lobby) = Some currentQuestion.

(** ** [POST /api/lobbies/users/buy-item] *)

Record BuyReq := {
  itemId : string;
  itemPrice : Z;
  itemCategory : string;
  itemName : string
}.

Definition purchase (req : BuyReq) (user : User) : User :=
  {| username := username user; u_elo := u_elo user;
     u_casualPoints := u_casualPoints user;
     rankedCorrectAnswers := rankedCorrectAnswers user;
     rankedTotalAnswers := rankedTotalAnswers user;
     casualCorrectAnswers := casualCorrectAnswers user;
     casualTotalAnswers := casualTotalAnswers user;
     soloStage := soloStage user;
     tokens := tokens user - itemPrice req;
     inventory := inventory user ++ [itemId req];
     equippedTitle :=
       if String.eqb (itemCategory req) "title" then itemName req
       else equippedTitle user;
     warningCount := warningCount user; penaltyEndTime := penaltyEndTime user |}.

Definition buy_item (w : World) (userId : string) (req : BuyReq) : World * Outcome :=
  match users w !! userId with
  | None => (w, reply 404 (Msg "User not found"))
  | Some user =>
      if existsb (String.eqb (itemId req)) (inventory user) then
        (w, reply 400 (Msg "You already own this item."))
      else if tokens user <? itemPrice req then
        (w, reply 400 (Msg "Insufficient tokens."))
      else
        let user' := purchase req user in
        (set_users (<[userId := user']> (users w)) w,
         reply 200 (Purchase ("Successfully purchased " ++ itemName req ++ "!")%string
                             (tokens user') (inventory user') (equippedTitle user')))
  end.

(** ** The inactivity monitor of [server.js] *)

Definition INACTIVITY_WARNING_THRESHOLD_MS : Z := 30000.
Definition MAX_WARNINGS : Z := 3.
Definition PENALTY_DURATION_MS : Z := 60 * 1000.

(** A connected socket: its id and the two fields the monitor sets on it. *)
Record Socket := {
  socket_id : string;
  socket_userId : option string;
  isInGame : bool
}.

(** What the monitor emits; [to] is the socket or room addressed, and the
    events without it go to every client. *)
Inductive Event :=
| penaltyApplied (to : string) (duration : Z)
| lobbyDeleted (lid : string)
| lobbyUpdated (to : string) (l : Lobby)
| kickedFromGame (to : string) (reason : string)
| inactivityWarning (to : string) (count maxWarnings : Z).

Definition set_warning (count : Z) (penalty : option Z) (user : User) : User :=
  {| username := username user; u_elo := u_elo user;
     u_casualPoints := u_casualPoints user;
     rankedCorrectAnswers := rankedCorrectAnswers user;
     rankedTotalAnswers := rankedTotalAnswers user;
     casualCorrectAnswers := casualCorrectAnswers user;
     casualTotalAnswers := casualTotalAnswers user;
     soloStage := soloStage user; tokens := tokens user;
     inventory := inventory user; equippedTitle := equippedTitle user;
     warningCount := count; penaltyEndTime := penalty |}.

(** The query [{ 'players.id': userId, gameStarted: true }]. *)
Definition in_game_of (userId : string) (l : Lobby) : bool :=
  (existsb (has_id userId) (players l) && gameStarted l)%bool.

(** The callback given to [setTimeout], run at time [now] for the user and
    the socket captured when the timer was armed.  [LobbyModel] is the
    constant [Lobby] of [server.js]: with it undefined, [Lobby.findOne]
    (line 99) throws into the [catch] of the callback, after the
    [penaltyApplied] emit and before [user.save()] (line 114). *)
Definition inactivity_timeout (LobbyModel : Binding) (w : World) (now : Z)
    (userId : string) (userSocket : Socket) : World * list Event :=
  match users w !! userId with
  | None => (w, [])
  | Some user =>
      let count := warningCount user + 1 in
      if MAX_WARNINGS <=? count then
        let user' := set_warning 0 (Some (now + PENALTY_DURATION_MS)) user in
        let applied := penaltyApplied (socket_id userSocket) PENALTY_DURATION_MS in
        let kicked := kickedFromGame (socket_id userSocket) "inactivity" in
        match LobbyModel with
        | Undefined => (w, [applied])
        | Bound =>
            match findOne (in_game_of userId) (lobbies w) with
            | Some (i, currentLobby) =>
                let currentLobby' :=
                  set_players (without userId (players currentLobby)) currentLobby in
                if (length (humans (players currentLobby')) =? 0)%nat then
                  ({| users := <[userId := user']> (users w);
                      lobbies := delete i (lobbies w) |},
                   [applied; lobbyDeleted (lobbyId currentLobby'); kicked])
                else
                  ({| users := <[userId := user']> (users w);
                      lobbies := save i currentLobby' (lobbies w) |},
                   [applied; lobbyUpdated (lobbyId currentLobby') currentLobby'; kicked])
            | None =>
                (set_users (<[userId := user']> (users w)) w, [applied])
            end
        end
      else
        (set_users (<[userId := set_warning count (penaltyEndTime user) user]> (users w)) w,
         [inactivityWarning (socket_id userSocket) count MAX_WARNINGS])
  end.

(** An armed timer: when it fires, and what its callback captured. *)
Record Timer := {
  fires_at : Z;
  timer_userId : string;
  timer_socket : Socket
}.

(** [resetInactivityTimer(userId)] at time [now]: the pending timer is
    cleared, and a new one is armed only for a socket flagged in-game. *)
Definition resetInactivityTimer (sockets : list Socket) (now : Z) (userId : string)
    : option Timer :=
  match List.find (fun s => bool_decide (socket_userId s = Some userId)) sockets with
  | Some userSocket =>
      if isInGame userSocket then
        Some {| fires_at := now + INACTIVITY_WARNING_THRESHOLD_MS;
                timer_userId := userId; timer_socket := userSocket |}
      else None
  | None => None
  end.

(** The firing of an armed timer. *)
Definition fire (LobbyModel : Binding) (w : World) (t : Timer) : World * list Event :=
  inactivity_timeout LobbyModel w (fires_at t) (timer_userId t) (timer_socket t).

(** ** Runs of the server *)

(** One request or one timer firing.  [step_profile] stands for the routes
    that write user documents only (sign-up, redeem-code, update-penalty,
    solo evaluation).  Nothing is assumed about the wiring: a step is taken
    with the constants bound or undefined, so the runs of the server as it
    is wired are among the runs below. *)
Inductive step : World -> World -> Prop :=
| step_create io w now h hu req sfx rand :
    step w (fst (create_lobby io w now h hu req sfx rand))
| step_join io w now lid u un rand :
    step w (fst (join_lobby io w now lid u un rand))
| step_leave io w lid u :
    step w (fst (leave_lobby io w lid u))
| step_ready io w lid u :
    step w (fst (toggle_ready io w lid u))
| step_start io w lid u deck rand :
    step w (fst (start_game io w lid u deck rand))
| step_answer io w lid u ans rand :
    step w (fst (submit_answer io w lid u ans rand))
| step_chat io w now lid u un text :
    step w (fst (send_chat io w now lid u un text))
| step_buy w u req :
    step w (fst (buy_item w u req))
| step_timeout model w now u sock :
    step w (fst (inactivity_timeout model w now u sock))
| step_profile w us :
    step w (set_users us w).

(** The worlds the server can be in, from an empty lobby collection. *)
Definition reachable (w : World) : Prop :=
  exists us, rtc step {| users := us; lobbies := [] |} w.

(** ** Invariants and the wording of the specification *)

(** The place of a letter in the alphabet, whatever its case. *)
Definition letter_index (c : ascii) : option nat :=
  let n := nat_of_ascii c in
  if ((65 <=? n) && (n <=? 90))%nat then Some (n - 65)%nat
  else if ((97 <=? n) && (n <=? 122))%nat then Some (n - 97)%nat
  else None.

(** Two characters that are the same letter, in whatever case, or the same
    character that is not a letter. *)
Definition same_ignoring_case (c d : ascii) : bool :=
  match letter_index c, letter_index d with
  | Some i, Some j => (i =? j)%nat
  | None, None => Ascii.eqb c d
  | _, _ => false
  end.

(** Case-insensitive equality of two strings, character by character. *)
Fixpoint equal_ignoring_case (s t : string) : bool :=
  match s, t with
  | EmptyString, EmptyString => true
  | String c s', String d t' => (same_ignoring_case c d && equal_ignoring_case s' t')%bool
  | _, _ => false
  end.

(** Raw correctness as the specification words it: the case-insensitive
    equality of the trimmed answer with the canonical answer. *)
Definition spec_raw_correct (userAnswer canonical : string) : bool :=
  equal_ignoring_case (JS.trim userAnswer) canonical.

(** Every character there is. *)
Definition all_ascii : list ascii := map ascii_of_nat (seq 0 256).

(** In a started lobby the roster is all alive, or all without lives (the
    latter only when the game was started with no lives to play with). *)
Definition lives_inv (l : Lobby) : Prop :=
  gameStarted l = true ->
  Forall (fun p => 0 < p_lives p) (players l) \/
  Forall (fun p => p_lives p <= 0) (players l).

Definition world_inv (w : World) : Prop := Forall lives_inv (lobbies w).

(** The conditions under which the start route starts a game. *)
Definition can_start (w : World) (lid userId : string) (i : nat) (lobby : Lobby) : Prop :=
  findOne (has_lobbyId lid) (lobbies w) = Some (i, lobby) /\
  hostId lobby = userId /\
  2 <= JS.len (players lobby) /\
  forallb p_isReady (players lobby) = true.

(** The shop invariant on a user document. *)
Definition wallet_ok (u : User) : Prop :=
  0 <= tokens u /\ NoDup (inventory u).

(** One iteration of the skip loop, from index [i] to index [j]. *)
Definition skip_step (ps : list Player) (i j : Z) : Prop :=
  eliminated_at ps i = true /\ j = next_index ps i.

(** ** Further routes of [routes/lobby.js] *)

(** [GET /api/lobbies]: the query [{ gameStarted: false, isRanked: false }],
    with [type] added when the query parameter is given (an empty one is
    not); the result is the JSON array sent back. *)
Definition list_lobbies (w : World) (type : string) : list Lobby :=
  List.filter
    (fun l => (negb (gameStarted l)
               && (String.eqb type "" || String.eqb (l_type l) type)
               && negb (isRanked l))%bool)
    (lobbies w).

(** Bodies of the two account routes below. *)
Inductive AccountBody :=
| AccountMsg (msg : string)
| AccountText (s : string)
| Redeemed (msg : string) (newTokens : Z)
| PenaltyStatus (msg : string) (user : User).

(** [POST /api/lobbies/users/redeem-code] *)
Definition redeem_code (w : World) (userId code : string)
    : World * (Z * AccountBody) :=
  match users w !! userId with
  | None => (w, (404, AccountMsg "User not found"))
  | Some user =>
      if String.eqb code "BlueLock" then
        let tokensAwarded := 50000 in
        let user' := set_tokens (tokens user + tokensAwarded) user in
        (set_users (<[userId := user']> (users w)) w,
         (200, Redeemed "Successfully redeemed code! You received 50000 tokens."
                        (tokens user')))
      else (w, (400, AccountMsg "Invalid code"))
  end.

(** [new Date(t)] is a date for a time value of at most 8.64e15 ms either
    side of the epoch, and an invalid date beyond. *)
Definition valid_time (t : Z) : bool :=
  ((-8640000000000000 <=? t) && (t <=? 8640000000000000))%bool.

(** [POST /api/lobbies/users/update-penalty], for a numeric
    [penaltyEndTime]: one that is absent, [null] or 0 is stored as [null];
    any other becomes [new Date(penaltyEndTime)], and the save of an
    invalid date fails. *)
Definition update_penalty (w : World) (userId : string) (count : Z)
    (penalty : option Z) : World * (Z * AccountBody) :=
  match users w !! userId with
  | None => (w, (404, AccountMsg "User not found"))
  | Some user =>
      let stored :=
        match penalty with
        | Some t => if t =? 0 then None else Some t
        | None => None
        end in
      let user' := set_warning count stored user in
      match stored with
      | Some t =>
          if valid_time t then
            (set_users (<[userId := user']> (users w)) w,
             (200, PenaltyStatus "Penalty status updated" user'))
          else (w, (500, AccountText "Server error"))
      | None =>
          (set_users (<[userId := user']> (users w)) w,
           (200, PenaltyStatus "Penalty status updated" user'))
      end
  end.

(** One firing of a user's inactivity timer, at a time and for a socket,
    as the server is wired. *)
Definition idle_once (userId : string) (w : World) (firing : Z * Socket) : World :=
  fst (inactivity_timeout Wiring.LobbyModel w (fst firing) userId (snd firing)).

(** ** Further invariants *)

(** The unique index on [lobbyId]. *)
Definition unique_ids (w : World) : Prop := NoDup (map lobbyId (lobbies w)).

(** A started lobby has a full deck and a current question. *)
Definition deck_inv (l : Lobby) : Prop :=
  gameStarted l = true ->
  length (questions l) = 5%nat /\
  0 <= currentQuestionIndex l < JS.len (questions l).

(** The settings a lobby is created with. *)
Definition same_settings (l l' : Lobby) : Prop :=
  lobbyId l' = lobbyId l /\ l_name l' = l_name l /\ l_type l' = l_type l /\
  maxPlayers l' = maxPlayers l /\ isRanked l' = isRanked l /\
  isCustom l' = isCustom l /\ isFrenzyMode l' = isFrenzyMode l /\
  initialLives l' = initialLives l /\ questionTimer l' = questionTimer l.

(** What saving a lobby in place may do to it. *)
Definition evolves (l l' : Lobby) : Prop :=
  same_settings l l' /\
  (exists more, chatMessages l' = chatMessages l ++ more) /\
  (deck_inv l -> deck_inv l').

(** What one step may do to the lobby collection. *)
Definition lobbies_effect (old new : list Lobby) : Prop :=
  new = old \/
  (exists l, gameStarted l = false /\
             existsb (has_lobbyId (lobbyId l)) old = false /\
             new = old ++ [l]) \/
  (exists i, new = delete i old) \/
  (exists i l l', old !! i = Some l /\ evolves l l' /\ new = <[i := l']> old).

(** ** Sample data *)

Module Sample.

Definition profile (uname : string) (rating points coins : Z) (owned : list string)
    (warnings : Z) : User :=
  {| username := uname; u_elo := rating; u_casualPoints := points;
     rankedCorrectAnswers := 0; rankedTotalAnswers := 0;
     casualCorrectAnswers := 0; casualTotalAnswers := 0; soloStage := 0;
     tokens := coins; inventory := owned; equippedTitle := "New Rival";
     warningCount := warnings; penaltyEndTime := None |}.

Definition ann : User := profile "ann" 5 3 120 ["hat"] 0.
Definition ben : User := profile "ben" 40 12 0 [] 0.

Definition people : gmap string User := <["u1" := ann]> (<["u2" := ben]> ∅).

Definition empty_world : World := {| users := people; lobbies := [] |}.

Definition seat (uid uname : string) (kind : PlayerType) (hp guards : Z) : Player :=
  {| p_id := uid; p_name := uname; p_isReady := true; p_type := kind;
     p_elo := 0; p_casualPoints := 0; p_lives := hp; p_currentRoundScore := 0;
     p_roundCorrectAnswers := 0; p_roundTotalAnswers := 0; p_cards := [];
     p_shields := guards; p_goldenDefenseUsed := false |}.

(** A lobby in play on the deck [originalQuestions], first question up. *)
Definition table (lid kind : string) (ranked custom : bool) (cap : Z)
    (started : bool) (ps : list Player) : Lobby :=
  {| lobbyId := lid; l_name := "room"; l_type := kind; hostId := "u1";
     players := ps; maxPlayers := cap; gameStarted := started;
     chatMessages := []; isRanked := ranked; isCustom := custom;
     isFrenzyMode := false; initialLives := 3; questionTimer := 30;
     playerCycles := 0; currentQuestionIndex := 0; currentPlayerIndex := 0;
     questions := originalQuestions |}.

Definition world_of (l : Lobby) : World := {| users := people; lobbies := [l] |}.

Definition no_draws : nat -> nat := fun _ => 0%nat.

Definition first_question : Question :=
  {| q := "What is the output of: cout << 2 + 2;"; a := "4"; hint := None |}.

(** Two humans in a casual game, ann to play. *)
Definition duel : Lobby :=
  table "L" "free-for-all-qna" false false 2 true
        [seat "u1" "ann" human 3 0; seat "u2" "ben" human 3 0].

(** The same two in a lobby that is full and has not started. *)
Definition full_room : Lobby :=
  table "L" "free-for-all-qna" false false 2 false
        [seat "u1" "ann" human 3 0; seat "u2" "ben" human 3 0].


(** A ranked game in which ann is on her last life. *)
Definition last_stand : Lobby :=
  table "L" "ranked-free-for-all-qna" true false 2 true
        [seat "u1" "ann" human 1 0; seat "u2" "ben" human 3 0].

Definition ranked_req : CreateReq :=
  {| cr_name := "arena"; cr_maxPlayers := 3;
     cr_type := "ranked-free-for-all-qna"; cr_isFrenzyMode := false;
     cr_initialLives := 3; cr_questionTimer := 30 |}.

(** A request for a lobby of capacity 0. *)
Definition no_seat_req : CreateReq :=
  {| cr_name := "void"; cr_maxPlayers := 0; cr_type := "custom-qna";
     cr_isFrenzyMode := false; cr_initialLives := 3; cr_questionTimer := 30 |}.

(** A request with a mode that is not in the schema. *)
Definition odd_mode_req : CreateReq :=
  {| cr_name := "odd"; cr_maxPlayers := 2; cr_type := "battle-royale";
     cr_isFrenzyMode := false; cr_initialLives := 3; cr_questionTimer := 30 |}.

Definition arena : string := "ranked_free_for_all_qna-abc".

(** A run of the server as it is wired: ann creates a ranked lobby of
    three, which the two bots fill, and starts the game. *)
Definition created : World :=
  fst (create_lobby Wiring.io empty_world 0 "u1" "ann" ranked_req "abc" no_draws).
Definition started : World :=
  fst (start_game Wiring.io created arena "u1" no_draws no_draws).

(** The lobby of that run once started, and ann's seat in it. *)
Definition arena_started : Lobby :=
  started_lobby (newLobby "u1" "ann" ann ranked_req "abc" no_draws) no_draws no_draws.

Definition ann_seat : Player := new_human "u1" "ann" true ann 3 [].

Definition cape : BuyReq :=
  {| itemId := "cape"; itemPrice := 50; itemCategory := "title";
     itemName := "Caped Rival" |}.

Definition session : Socket :=
  {| socket_id := "s1"; socket_userId := Some "u1"; isInGame := true |}.

(** A third user, one warning away from a penalty. *)
Definition cal : User := profile "cal" 0 0 0 [] 2.

(** Three humans in a casual game, ann to play. *)
Definition trio : Lobby :=
  table "L" "free-for-all-qna" false false 3 true
        [seat "u1" "ann" human 3 0; seat "u2" "ben" human 3 0;
         seat "u3" "cal" human 3 0].

(** The same game with the turn at the last seat. *)
Definition trio_last_seat : Lobby := set_currentPlayerIndex 2 trio.

(** Three humans in a game started without lives. *)
Definition graveyard : Lobby :=
  table "L" "free-for-all-qna" false false 3 true
        [seat "u1" "ann" human 0 0; seat "u2" "ben" human 0 0;
         seat "u3" "cal" human 0 0].

Definition idle_world : World :=
  {| users := <["u3" := cal]> people; lobbies := [trio] |}.

(** Ann and ben in a lobby of three that has not started, and cal, who is
    not in it. *)
Definition open_room : Lobby :=
  table "L" "free-for-all-qna" false false 3 false
        [seat "u1" "ann" human 3 0; seat "u2" "ben" human 3 0].

Definition lounge : World :=
  {| users := <["u3" := cal]> people; lobbies := [open_room] |}.

(** A question of the second bank. *)
Definition keyword_question : Question :=
  {| q := "Which keyword is used for constant?"; a := "const"; hint := None |}.

End Sample.

(** * Properties *)

(** A branch of a route that answers with an error cannot be the success
    assumed in [H]. *)
Ltac rejected H := injection H as <- <-; discriminate.

(** ** The wiring *)

(** Once the server is up, [io] is undefined in [routes/lobby.js]: the
    routes were loaded, and destructured the exports of [server.js],
    before [server.js] exported it. *)
Lemma io_undefined : Wiring.io = Undefined.
Proof. reflexivity. Qed.

(** And [Lobby] is undefined in [server.js]: the router that replaced the
    exports of [routes/lobby.js] does not carry it. *)
Lemma LobbyModel_undefined : Wiring.LobbyModel = Undefined.
Proof. reflexivity. Qed.

Lemma emit_then_undefined out : emit_then Wiring.io out = server_error.
Proof. reflexivity. Qed.

(** ** The lobby collection *)

Lemma findOne_Some query ls i l :
  findOne query ls = Some (i, l) -> ls !! i = Some l /\ query l = true.
Proof.
  revert i. induction ls as [|x r IH]; intros i H; simpl in H; [discriminate|].
  destruct (query x) eqn:Hq.
  - injection H as <- <-. auto.
  - destruct (findOne query r) as [[j l']|] eqn:Hr; [|discriminate].
    injection H as <- <-. simpl. apply IH. reflexivity.
Qed.

Lemma findOne_lobbyId lid ls i l :
  findOne (has_lobbyId lid) ls = Some (i, l) -> lobbyId l = lid.
Proof.
  intros H. apply findOne_Some in H as [_ H].
  unfold has_lobbyId in H. now apply String.eqb_eq in H.
Qed.

Lemma save_unchanged i l ls : ls !! i = Some l -> save i l ls = ls.
Proof. intros H. unfold save. now apply list_insert_id. Qed.

Lemma save_lookup i l l0 ls : ls !! i = Some l0 -> save i l ls !! i = Some l.
Proof.
  intros H. unfold save. apply list_lookup_insert_eq.
  eapply lookup_lt_Some; eauto.
Qed.

(** ** Rosters *)

Lemma without_non_member uid ps :
  existsb (has_id uid) ps = false -> without uid ps = ps.
Proof.
  induction ps as [|p r IH]; simpl; intros H; [reflexivity|].
  apply orb_false_iff in H as [Hp Hr].
  unfold without in *. simpl. rewrite Hp. simpl. now rewrite IH.
Qed.

Lemma without_length uid ps : (length (without uid ps) <= length ps)%nat.
Proof. unfold without. apply filter_length_le. Qed.

Lemma without_member_shorter uid ps :
  existsb (has_id uid) ps = true -> (length (without uid ps) < length ps)%nat.
Proof.
  induction ps as [|p r IH]; simpl; intros H; [discriminate|].
  unfold without in *. simpl.
  destruct (has_id uid p) eqn:Hp; simpl.
  - pose proof (filter_length_le (fun p => negb (has_id uid p)) r). lia.
  - simpl in H. apply IH in H. lia.
Qed.

Lemma find_existsb uid ps :
  existsb (has_id uid) ps = true <-> exists p, List.find (has_id uid) ps = Some p.
Proof.
  induction ps as [|p r IH]; simpl.
  - split; [discriminate | intros [? ?]; discriminate].
  - destruct (has_id uid p); simpl; [split; eauto | exact IH].
Qed.

Lemma find_has_id uid ps p :
  List.find (has_id uid) ps = Some p -> p_id p = uid /\ In p ps.
Proof.
  intros H. apply find_some in H as [Hin H].
  unfold has_id in H. apply String.eqb_eq in H. auto.
Qed.

(** ** Leaving a lobby *)

(** C9. A leave request by a user who is not in the roster of an existing
    lobby is answered 400 "User not found in lobby" and the world (the
    users and every lobby document: the lobby kept, its host and its
    player list as they were) is returned unchanged. *)
Theorem leave_non_member_rejected io w lid userId i lobby :
  findOne (has_lobbyId lid) (lobbies w) = Some (i, lobby) ->
  existsb (has_id userId) (players lobby) = false ->
  leave_lobby io w lid userId = (w, reply 400 (Msg "User not found in lobby")) /\
  lobbies (fst (leave_lobby io w lid userId)) !! i = Some lobby.
Proof.
  intros Hfind Hnot. unfold leave_lobby. rewrite Hfind. simpl.
  rewrite (without_non_member _ _ Hnot), Nat.eqb_refl. simpl.
  split; [reflexivity|]. now apply findOne_Some in Hfind as [? _].
Qed.

(** ** Joining a lobby *)

(** A join request by a user who is already in the roster never changes
    the world, so no second entry is made; when the user exists and is not
    penalised it is answered with the lobby as it is if the lobby is below
    capacity and not started, and with 400 "Lobby is full or game has
    started" otherwise.  No emit is reached on these paths. *)
Lemma join_member_unchanged io w now lid userId uname rand i lobby :
  findOne (has_lobbyId lid) (lobbies w) = Some (i, lobby) ->
  existsb (has_id userId) (players lobby) = true ->
  fst (join_lobby io w now lid userId uname rand) = w /\
  forall user,
    users w !! userId = Some user ->
    penalized now user = false ->
    snd (join_lobby io w now lid userId uname rand) =
      if ((maxPlayers lobby <=? JS.len (players lobby)) || gameStarted lobby)%bool
      then reply 400 (Msg "Lobby is full or game has started")
      else reply 200 (LobbyDoc lobby).
Proof.
  intros Hfind Hmem. unfold join_lobby. split.
  - destruct (users w !! userId) as [user|]; [|reflexivity].
    destruct (penalized now user); [reflexivity|]. rewrite Hfind.
    destruct (_ || _)%bool; [reflexivity|]. now rewrite Hmem.
  - intros user Hu Hpen. rewrite Hu, Hpen, Hfind.
    destruct (_ || _)%bool; [reflexivity|]. now rewrite Hmem.
Qed.

(** ** The shop *)

Lemma existsb_eqb_In (x : string) (l : list string) :
  existsb (String.eqb x) l = true <-> x ∈ l.
Proof.
  rewrite existsb_exists, list_elem_of_In. split.
  - intros [y [Hin Heq]]. apply String.eqb_eq in Heq. now subst.
  - intros Hin. exists x. split; [assumption | apply String.eqb_refl].
Qed.

(** C10. For a user whose balance is not negative and whose inventory has
    no duplicates: a purchase of an item already owned, or priced above the
    balance, is answered 400 and changes nothing; any other purchase is
    answered 200, takes exactly the price from the balance and appends the
    item id once, touching no other user and no lobby; in every case the
    user's balance is still not negative and the inventory still has no
    duplicates. *)
Theorem buy_item_preserves_wallet w userId req user :
  users w !! userId = Some user ->
  wallet_ok user ->
  let w' := fst (buy_item w userId req) in
  let out := snd (buy_item w userId req) in
  (itemId req ∈ inventory user \/ tokens user < itemPrice req ->
     w' = w /\ exists m, out = reply 400 (Msg m)) /\
  (itemId req ∉ inventory user -> itemPrice req <= tokens user ->
     exists user' m,
       users w' !! userId = Some user' /\
       out = reply 200 (Purchase m (tokens user') (inventory user') (equippedTitle user')) /\
       tokens user' = tokens user - itemPrice req /\
       inventory user' = inventory user ++ [itemId req] /\
       length (List.filter (String.eqb (itemId req)) (inventory user')) = 1%nat /\
       lobbies w' = lobbies w /\
       (forall other, other <> userId -> users w' !! other = users w !! other)) /\
  (exists user', users w' !! userId = Some user' /\ wallet_ok user').
Proof.
  intros Hu [Htok Hnd]. unfold buy_item. rewrite Hu. cbn zeta.
  destruct (existsb (String.eqb (itemId req)) (inventory user)) eqn:Hown.
  - apply existsb_eqb_In in Hown. simpl. repeat split.
    + eauto.
    + intros Hnot. contradiction.
    + exists user. unfold wallet_ok. auto.
  - assert (Hnot : itemId req ∉ inventory user).
    { intros Hin. apply existsb_eqb_In in Hin. congruence. }
    destruct (tokens user <? itemPrice req) eqn:Hlt.
    + apply Z.ltb_lt in Hlt. simpl. repeat split.
      * eauto.
      * intros _ Hle. lia.
      * exists user. unfold wallet_ok. auto.
    + apply Z.ltb_ge in Hlt. simpl. split; [|split].
      * intros [Hin | Hlt']; [contradiction | lia].
      * intros _ _. eexists _, _. rewrite lookup_insert_eq.
        split; [reflexivity|]. split; [reflexivity|]. simpl.
        split; [reflexivity|]. split; [reflexivity|]. split; [|split].
        -- rewrite List.filter_app, length_app. simpl.
           rewrite String.eqb_refl. simpl.
           assert (Hz : List.filter (String.eqb (itemId req)) (inventory user) = []).
           { clear -Hown. induction (inventory user) as [|x r IH]; [reflexivity|].
             simpl in *. apply orb_false_iff in Hown as [Hx Hr].
             rewrite Hx. auto. }
           rewrite Hz. reflexivity.
        -- reflexivity.
        -- intros other Hne. now rewrite lookup_insert_ne.
      * eexists. rewrite lookup_insert_eq. split; [reflexivity|].
        unfold wallet_ok. simpl. split; [lia|].
        apply NoDup_app. split; [assumption|]. split.
        -- intros x Hx Hx'. apply list_elem_of_singleton in Hx'. now subst.
        -- apply NoDup_singleton.
Qed.

(** ** Starting a game *)

Lemma getStartingCards_length frenzy rand k :
  length (getStartingCards frenzy rand k) = if frenzy then 3%nat else 0%nat.
Proof. unfold getStartingCards. now destruct frenzy. Qed.

(** When the route starts a game, it saves the lobby reset; what it
    answers then depends on the emit. *)
Lemma start_game_starts io w lid userId deck rand i lobby :
  can_start w lid userId i lobby ->
  start_game io w lid userId deck rand =
    (set_lobbies (save i (started_lobby lobby deck rand) (lobbies w)) w,
     emit_then io (reply 200 (MsgLobby "Game started" (started_lobby lobby deck rand)))).
Proof.
  intros (Hfind & Hhost & Hlen & Hready). unfold start_game. rewrite Hfind.
  apply String.eqb_eq in Hhost. rewrite Hhost. simpl.
  replace (JS.len (players lobby) <? 2) with false
    by (symmetry; apply Z.ltb_ge; exact Hlen).
  now rewrite Hready.
Qed.

(** In any other case the route writes nothing and answers 404, 403 or
    400. *)
Lemma start_game_refused io w lid userId deck rand :
  (forall i lobby, ~ can_start w lid userId i lobby) ->
  fst (start_game io w lid userId deck rand) = w /\
  exists code m,
    snd (start_game io w lid userId deck rand) = reply code (Msg m) /\
    (code = 404 \/ code = 403 \/ code = 400).
Proof.
  intros Hno. unfold start_game.
  destruct (findOne _ _) as [[i lobby]|] eqn:Hfind;
    [|split; [reflexivity | eexists 404, _; eauto]].
  destruct (String.eqb (hostId lobby) userId) eqn:Hh; simpl;
    [|split; [reflexivity | eexists 403, _; eauto]].
  apply String.eqb_eq in Hh.
  destruct (JS.len (players lobby) <? 2) eqn:Hn;
    [split; [reflexivity | eexists 400, _; eauto]|].
  apply Z.ltb_ge in Hn.
  destruct (forallb p_isReady (players lobby)) eqn:Hr; simpl;
    [|split; [reflexivity | eexists 400, _; eauto]].
  destruct (Hno i lobby). repeat split; assumption.
Qed.



(** ** Creating a lobby *)

Lemma newLobby_type h hu user req sfx rand :
  l_type (newLobby h hu user req sfx rand) = cr_type req.
Proof. reflexivity. Qed.

(** The ranked and the custom flag of a created lobby are never both set:
    [type] cannot start with both prefixes. *)
Lemma newLobby_flags_exclusive h hu user req sfx rand :
  (isRanked (newLobby h hu user req sfx rand)
   && isCustom (newLobby h hu user req sfx rand))%bool = false.
Proof.
  unfold newLobby. cbn [isRanked isCustom]. unfold JS.startsWith.
  destruct (cr_type req) as [|c s]; [reflexivity|]. cbn [String.prefix].
  destruct (Ascii.ascii_dec "r" c) as [<-|Hr]; [|reflexivity].
  destruct (Ascii.ascii_dec "c" "r") as [Hcr|_]; [discriminate|].
  apply andb_false_r.
Qed.

Lemma generateLobbyId_required prefix suffix :
  required (generateLobbyId prefix suffix) = true.
Proof. unfold required, generateLobbyId. now destruct prefix. Qed.

Lemma has_lobbyId_refl l : has_lobbyId (lobbyId l) l = true.
Proof. apply String.eqb_refl. Qed.

Lemma findOne_app_fresh query ls l :
  existsb query ls = false ->
  query l = true ->
  findOne query (ls ++ [l]) = Some (length ls, l).
Proof.
  intros Hfresh Hq. induction ls as [|x r IH]; simpl in *.
  - now rewrite Hq.
  - apply orb_false_iff in Hfresh as [Hx Hr]. rewrite Hx.
    now rewrite (IH Hr).
Qed.

Lemma newLobby_length h hu user req sfx rand :
  JS.len (players (newLobby h hu user req sfx rand)) = Z.max 1 (cr_maxPlayers req).
Proof.
  unfold JS.len, newLobby. cbn [players length].
  rewrite length_map, length_seq. lia.
Qed.

(** The ways the create route ends: nothing written and 404, 403 or 500;
    or the new lobby appended, and then the emit. *)
Lemma create_lobby_cases io w now host hu req sfx rand :
  (fst (create_lobby io w now host hu req sfx rand) = w /\
   exists code b,
     snd (create_lobby io w now host hu req sfx rand) = reply code b /\
     (code = 404 \/ code = 403 \/ code = 500)) \/
  (exists user,
     users w !! host = Some user /\
     penalized now user = false /\
     let l := newLobby host hu user req sfx rand in
     valid_new_lobby l = true /\
     existsb (has_lobbyId (lobbyId l)) (lobbies w) = false /\
     create_lobby io w now host hu req sfx rand =
       (set_lobbies (lobbies w ++ [l]) w, emit_then io (reply 201 (LobbyDoc l)))).
Proof.
  unfold create_lobby, insert_lobby.
  destruct (users w !! host) as [user|];
    [|left; split; [reflexivity | eexists 404, _; eauto]].
  destruct (penalized now user) eqn:Hpen;
    [left; split; [reflexivity | eexists 403, _; eauto]|].
  destruct (valid_new_lobby _) eqn:Hvalid; simpl;
    [|left; split; [reflexivity | eexists 500, _; eauto]].
  destruct (existsb _ _) eqn:Hfresh; simpl;
    [left; split; [reflexivity | eexists 500, _; auto]|].
  right. exists user. auto.
Qed.

(** What a lobby appended by the create route is. *)
Lemma create_lobby_stored io w now host hu req sfx rand l :
  lobbies (fst (create_lobby io w now host hu req sfx rand)) = lobbies w ++ [l] ->
  exists user,
    users w !! host = Some user /\
    penalized now user = false /\
    l = newLobby host hu user req sfx rand /\
    existsb (has_lobbyId (lobbyId l)) (lobbies w) = false /\
    create_lobby io w now host hu req sfx rand =
      (set_lobbies (lobbies w ++ [l]) w, emit_then io (reply 201 (LobbyDoc l))).
Proof.
  intros H.
  destruct (create_lobby_cases io w now host hu req sfx rand)
    as [[E _] | (user & Hu & Hpen & _ & Hfresh & E)]; rewrite E in H.
  - apply (f_equal (@length Lobby)) in H. rewrite length_app in H.
    simpl in H. lia.
  - simpl in H. apply app_inv_head in H. injection H as <-.
    exists user. auto.
Qed.

(** C7, as the code has it.  A request with a [type] outside the schema's
    list creates no lobby and is answered 404, 403 or 500: for an existing,
    unpenalised host it is the 500 "Server error" of the rejected save, not
    a validation error.  The capacity is not checked: for such a host with
    a non-empty id and name, a request with [maxPlayers < 1], a listed
    [type], a lobby name and a fresh id stores a lobby whose only player is
    the host, appended to the collection. *)
Theorem create_lobby_validation io w now host hostUsername req sfx rand :
  (existsb (String.eqb (cr_type req)) lobby_types = false ->
     fst (create_lobby io w now host hostUsername req sfx rand) = w /\
     (exists m code,
        snd (create_lobby io w now host hostUsername req sfx rand) = reply code m /\
        (code = 404 \/ code = 403 \/ code = 500)) /\
     (forall user,
        users w !! host = Some user -> penalized now user = false ->
        snd (create_lobby io w now host hostUsername req sfx rand) = server_error)) /\
  (forall user,
     users w !! host = Some user -> penalized now user = false ->
     let l := newLobby host hostUsername user req sfx rand in
     cr_maxPlayers req < 1 ->
     existsb (String.eqb (cr_type req)) lobby_types = true ->
     cr_name req <> "" -> host <> "" -> hostUsername <> "" ->
     existsb (has_lobbyId (lobbyId l)) (lobbies w) = false ->
       fst (create_lobby io w now host hostUsername req sfx rand) =
         set_lobbies (lobbies w ++ [l]) w /\
       map p_id (players l) = [host] /\
       maxPlayers l = cr_maxPlayers req).
Proof.
  split.
  - intros Hty. unfold create_lobby, insert_lobby, valid_new_lobby.
    destruct (users w !! host) as [user|].
    + destruct (penalized now user) eqn:Hpen.
      * split; [reflexivity|]. split; [eexists _, 403; eauto|].
        intros u [= <-] Hp. congruence.
      * rewrite newLobby_type, Hty. simpl.
        split; [reflexivity|]. split; [eexists _, 500; split; [reflexivity|auto]|].
        reflexivity.
    + split; [reflexivity|]. split; [eexists _, 404; eauto|].
      intros u [=].
  - intros user Hu Hpen l Hcap Hty Hname Hhost Huname Hfresh.
    unfold create_lobby, insert_lobby. rewrite Hu, Hpen. fold l.
    assert (Hbots : players l = [new_human host hostUsername
                                   (JS.startsWith (cr_type req) "ranked-") user
                                   (cr_initialLives req)
                                   (getStartingCards (cr_isFrenzyMode req) rand 0)]).
    { unfold l, newLobby. cbn [players].
      now replace (Z.to_nat (cr_maxPlayers req - 1)) with 0%nat by lia. }
    assert (Hvalid : valid_new_lobby l = true).
    { unfold valid_new_lobby. rewrite Hbots.
      change (l_type l) with (cr_type req). change (l_name l) with (cr_name req).
      change (hostId l) with host.
      change (lobbyId l)
        with (generateLobbyId (JS.replace_dashes (cr_type req)) sfx).
      rewrite Hty, generateLobbyId_required.
      cbn [forallb]. unfold valid_player, new_human. cbn [p_id p_name].
      unfold required.
      apply String.eqb_neq in Hname, Hhost, Huname.
      now rewrite Hname, Hhost, Huname. }
    rewrite Hvalid, Hfresh. cbn [andb negb fst].
    split; [reflexivity|]. split; [now rewrite Hbots | reflexivity].
Qed.

(** ** Joining one's own lobby *)

(** The lobby the create route stores is full, and its host is seated. *)
Lemma newLobby_full h hu user req sfx rand :
  let l := newLobby h hu user req sfx rand in
  (maxPlayers l <=? JS.len (players l)) = true /\
  existsb (has_id h) (players l) = true.
Proof.
  intros l. split.
  - apply Z.leb_le. unfold l. rewrite newLobby_length. simpl. lia.
  - unfold l, newLobby. cbn [players existsb]. unfold has_id at 1.
    cbn [p_id new_human]. now rewrite String.eqb_refl.
Qed.

(** C2.  The host of a lobby the create route has just stored is in its
    roster, and the lobby is full from the start (the bots take every other
    seat).  A join request of the host for that lobby, made while not
    penalised, is not answered with the lobby: the capacity check comes
    before the membership check, and the answer is 400 "Lobby is full or
    game has started".  Nothing is written. *)
Theorem host_rejoin_rejected io io' w now host hu req sfx rand l :
  lobbies (fst (create_lobby io w now host hu req sfx rand)) = lobbies w ++ [l] ->
  let w' := fst (create_lobby io w now host hu req sfx rand) in
  existsb (has_id host) (players l) = true /\
  forall now' user uname rand',
    users w' !! host = Some user ->
    penalized now' user = false ->
    join_lobby io' w' now' (lobbyId l) host uname rand' =
      (w', reply 400 (Msg "Lobby is full or game has started")).
Proof.
  intros H w'.
  destruct (create_lobby_stored _ _ _ _ _ _ _ _ _ H)
    as (owner & _ & _ & Hl & Hfresh & E).
  destruct (newLobby_full host hu owner req sfx rand) as [Hfull Hseat].
  rewrite <- Hl in Hfull, Hseat. split; [exact Hseat|].
  intros now' user uname rand' Hu Hpen.
  assert (Hfind : findOne (has_lobbyId (lobbyId l)) (lobbies w') =
                  Some (length (lobbies w), l)).
  { unfold w'. rewrite H.
    apply findOne_app_fresh; [exact Hfresh | apply has_lobbyId_refl]. }
  destruct (join_member_unchanged io' w' now' (lobbyId l) host uname rand'
              _ l Hfind Hseat) as [Hw Hout].
  rewrite (surjective_pairing (join_lobby _ _ _ _ _ _ _)), Hw, (Hout user Hu Hpen).
  now rewrite Hfull.
Qed.

(** ** Array indexing and the skip loop *)

Lemma index_Some {A} (arr : list A) i x :
  JS.index arr i = Some x <-> 0 <= i /\ arr !! Z.to_nat i = Some x.
Proof.
  unfold JS.index. destruct (i <? 0) eqn:Hi.
  - apply Z.ltb_lt in Hi. split; [discriminate | lia].
  - apply Z.ltb_ge in Hi. tauto.
Qed.

Lemma index_range {A} (arr : list A) i x :
  JS.index arr i = Some x -> 0 <= i < JS.len arr.
Proof.
  intros H. apply index_Some in H as [Hi H].
  apply lookup_lt_Some in H. unfold JS.len. lia.
Qed.

Lemma index_in_range {A} (arr : list A) i :
  0 <= i < JS.len arr -> exists x, JS.index arr i = Some x.
Proof.
  intros Hi. unfold JS.len in Hi.
  destruct (lookup_lt_is_Some_2 arr (Z.to_nat i)) as [x Hx]; [lia|].
  exists x. apply index_Some. split; [lia | exact Hx].
Qed.

Lemma next_index_mod ps i :
  0 <= i -> 0 < JS.len ps -> next_index ps i = (i + 1) mod JS.len ps.
Proof. intros Hi Hn. unfold next_index. apply Z.rem_mod_nonneg; lia. Qed.

Lemma next_index_range ps i :
  0 <= i -> 0 < JS.len ps -> 0 <= next_index ps i < JS.len ps.
Proof.
  intros Hi Hn. rewrite next_index_mod by assumption.
  apply Z.mod_pos_bound. assumption.
Qed.

Lemma eliminated_at_true ps i :
  eliminated_at ps i = true <->
  exists p, JS.index ps i = Some p /\ p_lives p <= 0.
Proof.
  unfold eliminated_at. destruct (JS.index ps i) as [p|].
  - rewrite Z.leb_le. split; [eauto | intros [q [[= <-] H]]; exact H].
  - split; [discriminate | intros [q [[=] _]]].
Qed.

(** A loop that stops, stops on an index at which the guard fails, and
    inside the array when it started there. *)
Lemma skip_eliminated_Some fuel ps i j :
  skip_eliminated fuel ps i = Some j ->
  eliminated_at ps j = false /\
  (0 <= i < JS.len ps -> 0 <= j < JS.len ps).
Proof.
  revert i. induction fuel as [|fuel IH]; intros i H; simpl in H;
    destruct (eliminated_at ps i) eqn:He; try discriminate.
  - injection H as <-. auto.
  - apply IH in H as [Hj Hr]. split; [exact Hj|].
    intros Hi. apply Hr, next_index_range; lia.
  - injection H as <-. auto.
Qed.

(** A loop still running after [fuel] iterations found the guard true at
    each of the [fuel + 1] indices it visited. *)
Lemma skip_eliminated_None fuel ps i :
  0 <= i < JS.len ps ->
  skip_eliminated fuel ps i = None ->
  forall k, 0 <= k <= Z.of_nat fuel ->
    eliminated_at ps ((i + k) mod JS.len ps) = true.
Proof.
  revert i. induction fuel as [|fuel IH]; intros i Hi H k Hk; simpl in H;
    destruct (eliminated_at ps i) eqn:He; try discriminate.
  - replace k with 0 by lia. rewrite Z.add_0_r, Z.mod_small by lia. exact He.
  - destruct (Z.eq_dec k 0) as [->|Hk0].
    + rewrite Z.add_0_r, Z.mod_small by lia. exact He.
    + specialize (IH (next_index ps i) ltac:(apply next_index_range; lia) H
                     (k - 1) ltac:(lia)).
      rewrite next_index_mod in IH by lia.
      rewrite Zplus_mod_idemp_l in IH.
      now replace (i + 1 + (k - 1)) with (i + k) in IH by lia.
Qed.

(** After as many iterations as there are players the loop has seen the
    whole roster: if it is still running, nobody has a life left. *)
Lemma skip_eliminated_all_out ps i :
  0 <= i < JS.len ps ->
  skip_eliminated (length ps) ps i = None ->
  Forall (fun p => p_lives p <= 0) ps.
Proof.
  intros Hi H. apply Forall_lookup. intros n p Hn.
  pose proof (lookup_lt_Some _ _ _ Hn) as Hlt.
  pose proof (skip_eliminated_None _ _ _ Hi H
                ((Z.of_nat n - i) mod JS.len ps)) as Hk.
  unfold JS.len in *.
  assert (Hb : 0 <= (Z.of_nat n - i) mod Z.of_nat (length ps) < Z.of_nat (length ps))
    by (apply Z.mod_pos_bound; lia).
  specialize (Hk ltac:(lia)).
  rewrite Zplus_mod_idemp_r in Hk.
  replace (i + (Z.of_nat n - i)) with (Z.of_nat n) in Hk by lia.
  rewrite Z.mod_small in Hk by lia.
  apply eliminated_at_true in Hk as [p' [Hp' Hl]].
  apply index_Some in Hp' as [_ Hp']. rewrite Nat2Z.id in Hp'.
  congruence.
Qed.

(** The loop as the code runs it: [skip_step] is one iteration.  A result
    [Some j] is the index on which the loop exits. *)
Lemma skip_eliminated_exits fuel ps i j :
  skip_eliminated fuel ps i = Some j ->
  rtc (skip_step ps) i j /\ eliminated_at ps j = false.
Proof.
  revert i. induction fuel as [|fuel IH]; intros i H; simpl in H;
    destruct (eliminated_at ps i) eqn:He; try discriminate.
  - injection H as <-. split; [apply rtc_refl | exact He].
  - apply IH in H as [Hrun Hj]. split; [|exact Hj].
    eapply rtc_l; [|exact Hrun]. split; [exact He | reflexivity].
  - injection H as <-. split; [apply rtc_refl | exact He].
Qed.

(** A result [None] with the fuel the route gives is a loop that never
    exits: the guard holds at every index the loop will ever reach. *)
Lemma skip_eliminated_hangs ps i :
  0 <= i < JS.len ps ->
  skip_eliminated (length ps) ps i = None ->
  forall j, rtc (skip_step ps) i j -> eliminated_at ps j = true.
Proof.
  intros Hi H j Hrun.
  pose proof (skip_eliminated_all_out _ _ Hi H) as Hall.
  assert (Hj : 0 <= j < JS.len ps).
  { clear H. induction Hrun as [|x y z [_ ->] _ IH]; [exact Hi|].
    apply IH, next_index_range; lia. }
  destruct (index_in_range ps j Hj) as [p Hp].
  apply eliminated_at_true. exists p. split; [exact Hp|].
  apply index_Some in Hp as [_ Hp].
  eapply Forall_lookup_1 in Hall; eauto.
Qed.

(** With somebody alive in the roster the loop exits, on a player with
    lives above 0. *)
Lemma skip_eliminated_finds ps i :
  0 <= i < JS.len ps ->
  Exists (fun p => 0 < p_lives p) ps ->
  exists j p, skip_eliminated (length ps) ps i = Some j /\
              JS.index ps j = Some p /\ 0 < p_lives p.
Proof.
  intros Hi Hex.
  destruct (skip_eliminated (length ps) ps i) as [j|] eqn:H.
  - destruct (skip_eliminated_Some _ _ _ _ H) as [Hj Hr].
    destruct (index_in_range ps j (Hr Hi)) as [p Hp].
    exists j, p. split; [reflexivity|]. split; [exact Hp|].
    unfold eliminated_at in Hj. rewrite Hp in Hj. now apply Z.leb_gt in Hj.
  - apply skip_eliminated_all_out in H; [|exact Hi].
    apply Exists_exists in Hex as [p [Hp Hl]].
    rewrite Forall_forall in H. apply H in Hp. lia.
Qed.

(** ** User documents *)

Lemma update_user_lookup uid f (us : gmap string User) k :
  update_user uid f us !! k =
  if decide (k = uid) then f <$> us !! uid else us !! k.
Proof.
  unfold update_user. destruct (us !! uid) as [u|] eqn:Hu.
  - destruct (decide (k = uid)) as [->|Hne].
    + now rewrite lookup_insert_eq.
    + now rewrite lookup_insert_ne.
  - destruct (decide (k = uid)) as [->|Hne]; [now rewrite Hu | reflexivity].
Qed.

Lemma tokens_update_stats ranked correct u :
  tokens (update_stats ranked correct u) = tokens u.
Proof. now destruct ranked. Qed.

Lemma set_tokens_same u : set_tokens (tokens u) u = u.
Proof. now destruct u. Qed.

Lemma find_head_filter {A} (f : A -> bool) (l : list A) :
  List.find f l = head (List.filter f l).
Proof.
  induction l as [|x r IH]; [reflexivity|]. simpl.
  destruct (f x); [reflexivity | exact IH].
Qed.

(** The award changes tokens only. *)
Lemma award_winner_lookup lobby (us : gmap string User) k u :
  us !! k = Some u ->
  exists t, award_winner lobby us !! k = Some (set_tokens t u).
Proof.
  intros Hk. unfold award_winner.
  destruct (List.find _ (players lobby)) as [winner|].
  - rewrite update_user_lookup. destruct (decide (k = p_id winner)) as [->|Hne].
    + rewrite Hk. simpl. eauto.
    + exists (tokens u). now rewrite set_tokens_same.
  - exists (tokens u). now rewrite set_tokens_same.
Qed.

(** ** Raw correctness *)

Lemma all_ascii_complete c : In c all_ascii.
Proof.
  unfold all_ascii. rewrite <- (ascii_nat_embedding c).
  apply in_map, in_seq. pose proof (nat_ascii_bounded c). lia.
Qed.

(** Folding to lower case identifies exactly the characters that are the
    same up to case. *)
Lemma lower_ascii_same c d :
  Ascii.eqb (JS.lower_ascii c) (JS.lower_ascii d) = same_ignoring_case c d.
Proof.
  assert (H : forallb (fun c =>
                forallb (fun d =>
                  Bool.eqb (Ascii.eqb (JS.lower_ascii c) (JS.lower_ascii d))
                           (same_ignoring_case c d)) all_ascii) all_ascii = true)
    by (vm_compute; reflexivity).
  rewrite List.forallb_forall in H. specialize (H c (all_ascii_complete c)).
  rewrite List.forallb_forall in H. specialize (H d (all_ascii_complete d)).
  now apply Bool.eqb_prop in H.
Qed.

Lemma toLowerCase_eqb s t :
  String.eqb (JS.toLowerCase s) (JS.toLowerCase t) = equal_ignoring_case s t.
Proof.
  revert t. induction s as [|c s IH]; intros [|d t];
    cbn [JS.toLowerCase String.eqb equal_ignoring_case]; try reflexivity.
  now rewrite lower_ascii_same, IH.
Qed.

Lemma toLowerCase_length s : String.length (JS.toLowerCase s) = String.length s.
Proof. induction s as [|c s IH]; simpl; congruence. Qed.

Lemma is_space_lower c : JS.is_space (JS.lower_ascii c) = JS.is_space c.
Proof.
  assert (H : forallb (fun c => Bool.eqb (JS.is_space (JS.lower_ascii c)) (JS.is_space c))
                      all_ascii = true) by (vm_compute; reflexivity).
  rewrite List.forallb_forall in H. specialize (H c (all_ascii_complete c)).
  now apply Bool.eqb_prop in H.
Qed.

Lemma trimStart_length s : (String.length (JS.trimStart s) <= String.length s)%nat.
Proof.
  induction s as [|c s IH]; simpl; [lia|].
  destruct (JS.is_space c); simpl; lia.
Qed.

Lemma trimStart_same s :
  String.length (JS.trimStart s) = String.length s -> JS.trimStart s = s.
Proof.
  destruct s as [|c s]; [reflexivity|]. simpl.
  destruct (JS.is_space c); [|reflexivity].
  pose proof (trimStart_length s). simpl. lia.
Qed.

Lemma trimEnd_length s : (String.length (JS.trimEnd s) <= String.length s)%nat.
Proof.
  induction s as [|c s IH]; simpl; [lia|].
  destruct (JS.trimEnd s); [destruct (JS.is_space c)|]; simpl in *; lia.
Qed.

Lemma trimEnd_same s :
  String.length (JS.trimEnd s) = String.length s -> JS.trimEnd s = s.
Proof.
  induction s as [|c s IH]; [reflexivity|]. simpl.
  pose proof (trimEnd_length s) as Hle.
  destruct (JS.trimEnd s) as [|d r] eqn:Ht.
  - destruct (JS.is_space c); simpl; [lia|].
    intros H. destruct s; [reflexivity | simpl in H; lia].
  - simpl. intros H. f_equal. apply IH. simpl in *. lia.
Qed.

(** An answer that [trim] does not shorten has no surrounding white space:
    [trim] leaves it as it is. *)
Lemma trim_same s : String.length (JS.trim s) = String.length s -> JS.trim s = s.
Proof.
  unfold JS.trim. intros H.
  pose proof (trimStart_length s). pose proof (trimEnd_length (JS.trimStart s)).
  rewrite trimEnd_same by lia. apply trimStart_same. lia.
Qed.

Lemma trimStart_lower s :
  JS.trimStart (JS.toLowerCase s) = JS.toLowerCase (JS.trimStart s).
Proof.
  induction s as [|c s IH]; [reflexivity|].
  cbn [JS.toLowerCase JS.trimStart]. rewrite is_space_lower.
  destruct (JS.is_space c); [exact IH | reflexivity].
Qed.

Lemma trimEnd_lower s :
  JS.trimEnd (JS.toLowerCase s) = JS.toLowerCase (JS.trimEnd s).
Proof.
  induction s as [|c s IH]; [reflexivity|].
  cbn [JS.toLowerCase JS.trimEnd]. rewrite IH, is_space_lower.
  destruct (JS.trimEnd s); [destruct (JS.is_space c)|]; reflexivity.
Qed.

Lemma trim_lower s : JS.trim (JS.toLowerCase s) = JS.toLowerCase (JS.trim s).
Proof. unfold JS.trim. now rewrite trimStart_lower, trimEnd_lower. Qed.

(** C1, as the code has it.  For ASCII strings, the raw correctness the
    answer route computes is the case-insensitive equality of the submitted
    answer, as submitted and not trimmed, with the canonical answer of the
    current question.  So an answer that is raw-correct in the sense of the
    specification (trimmed first) is judged raw-correct exactly when it
    carries no surrounding white space; and for a canonical answer without
    surrounding white space, every answer judged raw-correct is raw-correct
    in the sense of the specification. *)
Theorem raw_correctness_untrimmed ans question :
  JS.ascii_only ans = true ->
  JS.ascii_only (a question) = true ->
  isCorrect ans question = equal_ignoring_case ans (a question) /\
  (spec_raw_correct ans (a question) = true ->
     (isCorrect ans question = true <-> JS.trim ans = ans)) /\
  (JS.trim (a question) = a question ->
     isCorrect ans question = true ->
     spec_raw_correct ans (a question) = true).
Proof.
  intros _ _. unfold isCorrect, spec_raw_correct.
  split; [apply toLowerCase_eqb|]. split.
  - intros Hspec. rewrite <- toLowerCase_eqb in Hspec.
    apply String.eqb_eq in Hspec. split.
    + intros H. apply String.eqb_eq in H. apply trim_same.
      rewrite <- (toLowerCase_length (JS.trim ans)), Hspec, <- H.
      apply toLowerCase_length.
    + intros H. rewrite H in Hspec. now apply String.eqb_eq.
  - intros Hcanon H. apply String.eqb_eq in H.
    rewrite <- toLowerCase_eqb. apply String.eqb_eq.
    now rewrite <- trim_lower, H, trim_lower, Hcanon.
Qed.

(** ** Submitting an answer *)

Lemma submit_answer_in_turn io w lid userId ans rand i lobby cur question :
  in_turn w lid userId i lobby cur question ->
  submit_answer io w lid userId ans rand =
  resolve_turn io w i lobby userId cur question ans rand.
Proof.
  intros (Hfind & Hst & Hcur & (inTurn & Hidx & Hid) & Hq).
  unfold submit_answer. rewrite Hfind, Hst, Hcur, Hidx. simpl.
  rewrite Hid, String.eqb_refl. simpl. now rewrite Hq.
Qed.

(** With [io] undefined, an answer that passes every check of the route is
    answered 500 "Server error", and nothing is written: the first emit
    comes before every save. *)
Lemma accepted_answer_throws w lid userId ans rand i lobby cur question :
  in_turn w lid userId i lobby cur question ->
  submit_answer Wiring.io w lid userId ans rand = (w, server_error).
Proof.
  intros Hturn. rewrite (submit_answer_in_turn _ _ _ _ _ _ _ _ _ _ Hturn).
  reflexivity.
Qed.

(** With [io] undefined, the answer route never writes and never answers
    200; it always answers. *)
Lemma submit_answer_unwired w lid userId ans rand :
  fst (submit_answer Wiring.io w lid userId ans rand) = w /\
  exists code b,
    snd (submit_answer Wiring.io w lid userId ans rand) = reply code b /\
    (code = 400 \/ code = 403 \/ code = 500).
Proof.
  unfold submit_answer.
  destruct (findOne _ _) as [[i lobby]|];
    [|split; [reflexivity | eexists 400, _; eauto]].
  destruct (negb _); [split; [reflexivity | eexists 400, _; eauto]|].
  destruct (List.find _ _) as [cur|];
    [|split; [reflexivity | eexists 403, _; eauto]].
  destruct (JS.index (players lobby) _);
    [|split; [reflexivity | eexists 500, _; eauto]].
  destruct (negb _); [split; [reflexivity | eexists 403, _; eauto]|].
  destruct (JS.index (questions lobby) _) as [question|];
    split; try reflexivity; eexists 500, _; eauto.
Qed.



(** C5.  With [io] undefined in the routes, no game ever ends.  When the
    roster an answer would leave (the answering player removed if out of
    lives) holds at most one human, the route still throws at its first
    emit: the answer is 500 "Server error" and not "Game over", the lobby
    stored is the lobby before the request, still in progress, and no
    user's tokens change. *)
Theorem game_never_ends w lid userId ans rand i lobby cur question :
  in_turn w lid userId i lobby cur question ->
  (length (humans (players
     (after_answer userId (isCorrect ans question) cur lobby))) <= 1)%nat ->
  let w' := fst (submit_answer Wiring.io w lid userId ans rand) in
  snd (submit_answer Wiring.io w lid userId ans rand) = server_error /\
  lobbies w' !! i = Some lobby /\
  gameStarted lobby = true /\
  users w' = users w.
Proof.
  intros Hturn _ w'. unfold w'.
  rewrite (accepted_answer_throws _ _ _ _ _ _ _ _ _ Hturn).
  destruct Hturn as (Hfind & Hst & _).
  apply findOne_Some in Hfind as [Hi _]. auto.
Qed.

(** ** The answer handler with [io] bound *)

(** The submitter's document after the route is the statistics update of
    the document before it, up to tokens. *)
Lemma resolve_turn_stats w i lobby userId cur question ans rand user :
  users w !! userId = Some user ->
  exists t,
    users (fst (resolve_turn Bound w i lobby userId cur question ans rand)) !! userId =
    Some (set_tokens t (update_stats (isRanked lobby) (isCorrect ans question) user)).
Proof.
  intros Hu. unfold resolve_turn.
  set (stats := update_stats (isRanked lobby) (isCorrect ans question)).
  assert (H1 : update_user userId stats (users w) !! userId = Some (stats user)).
  { rewrite update_user_lookup. destruct (decide (userId = userId)); [|congruence].
    now rewrite Hu. }
  destruct (JS.len _ <=? 1).
  - simpl. now apply award_winner_lookup.
  - destruct (skip_eliminated _ _ _); simpl;
      exists (tokens (stats user)); now rewrite set_tokens_same.
Qed.

Lemma update_found_length uid f ps :
  length (update_found uid f ps) = length ps.
Proof.
  induction ps as [|p r IH]; [reflexivity|]. simpl.
  destruct (has_id uid p); simpl; congruence.
Qed.

Lemma update_found_find uid f ps cur :
  List.find (has_id uid) ps = Some cur ->
  p_id (f cur) = p_id cur ->
  List.find (has_id uid) (update_found uid f ps) = Some (f cur).
Proof.
  intros H Hid. induction ps as [|p r IH]; [discriminate|]. simpl in *.
  destruct (has_id uid p) eqn:Hp.
  - injection H as ->. simpl. unfold has_id in *. now rewrite Hid, Hp.
  - simpl. rewrite Hp. auto.
Qed.

Lemma deal_to_all_find uid c ps :
  List.find (has_id uid) (deal_to_all c ps) =
  (fun p => set_cards (p_cards p ++ [c]) p) <$> List.find (has_id uid) ps.
Proof.
  induction ps as [|p r IH]; [reflexivity|]. simpl.
  unfold has_id at 1. simpl. fold (has_id uid p).
  destruct (has_id uid p); [reflexivity | exact IH].
Qed.

(** The cadence step changes the cycle counter and the hands only. *)
Lemma count_cycle_players turn rand lobby :
  players (count_cycle turn rand lobby) = players lobby \/
  players (count_cycle turn rand lobby) =
    deal_to_all (randomCard rand) (players lobby).
Proof.
  unfold count_cycle.
  destruct (_ || _)%bool; [|now left]. simpl.
  destruct (_ && _)%bool; [now right | now left].
Qed.

Lemma count_cycle_index turn rand lobby :
  currentPlayerIndex (count_cycle turn rand lobby) = currentPlayerIndex lobby.
Proof.
  unfold count_cycle.
  destruct (_ || _)%bool; [|reflexivity]. simpl.
  now destruct (_ && _)%bool.
Qed.

Lemma count_cycle_started turn rand lobby :
  gameStarted (count_cycle turn rand lobby) = gameStarted lobby.
Proof.
  unfold count_cycle.
  destruct (_ || _)%bool; [|reflexivity]. simpl.
  now destruct (_ && _)%bool.
Qed.

Lemma resolve_player_id correct p : p_id (resolve_player correct p) = p_id p.
Proof. reflexivity. Qed.

Lemma after_answer_index uid correct cur lobby :
  currentPlayerIndex (after_answer uid correct cur lobby) = currentPlayerIndex lobby.
Proof. unfold after_answer, eliminate. now destruct (_ <=? 0). Qed.

Lemma floor0_max n : floor0 n = Z.max 0 n.
Proof. unfold floor0. destruct (n <? 0) eqn:H; [apply Z.ltb_lt in H | apply Z.ltb_ge in H]; lia. Qed.

(** What the handler goes on to do when its emits succeed.  When the
    player whose turn it is submits a raw-incorrect answer while holding at
    least one shield: the update of the player takes exactly one shield and
    leaves the lives as they were; the user's statistics are updated by raw
    correctness, so in a ranked lobby the rating goes down by 10 and not
    below 0, and otherwise the casual points go down by 5 and not below
    0. *)
Lemma bound_shield_spares_life_not_rating w lid userId ans rand i lobby cur question user :
  in_turn w lid userId i lobby cur question ->
  isCorrect ans question = false ->
  1 <= p_shields cur ->
  users w !! userId = Some user ->
  let w' := fst (submit_answer Bound w lid userId ans rand) in
  let resolved := resolve_player (isCorrect ans question) cur in
  (p_shields resolved = p_shields cur - 1 /\ p_lives resolved = p_lives cur) /\
  (exists user',
     users w' !! userId = Some user' /\
     if isRanked lobby then
       u_elo user' = Z.max 0 (u_elo user - 10) /\
       rankedTotalAnswers user' = rankedTotalAnswers user + 1 /\
       rankedCorrectAnswers user' = rankedCorrectAnswers user /\
       u_casualPoints user' = u_casualPoints user
     else
       u_casualPoints user' = Z.max 0 (u_casualPoints user - 5) /\
       casualTotalAnswers user' = casualTotalAnswers user + 1 /\
       casualCorrectAnswers user' = casualCorrectAnswers user /\
       u_elo user' = u_elo user).
Proof.
  intros Hturn Hwrong Hsh Hu w' resolved.
  assert (Hres : p_shields resolved = p_shields cur - 1 /\
                 p_lives resolved = p_lives cur).
  { unfold resolved, resolve_player, actualIsCorrect, shield_absorbs.
    rewrite Hwrong. simpl.
    now replace (0 <? p_shields cur) with true by (symmetry; apply Z.ltb_lt; lia). }
  split; [exact Hres|].
  destruct (resolve_turn_stats w i lobby userId cur question ans rand user Hu)
    as [t Ht].
  unfold w'. rewrite (submit_answer_in_turn _ _ _ _ _ _ _ _ _ _ Hturn).
  eexists. split; [exact Ht|]. rewrite Hwrong.
  destruct (isRanked lobby); simpl; rewrite floor0_max; auto.
Qed.

Lemma after_answer_settings uid correct cur lobby :
  let lobby2 := after_answer uid correct cur lobby in
  isRanked lobby2 = isRanked lobby /\
  isCustom lobby2 = isCustom lobby /\
  gameStarted lobby2 = gameStarted lobby /\
  currentPlayerIndex lobby2 = currentPlayerIndex lobby /\
  currentQuestionIndex lobby2 = currentQuestionIndex lobby /\
  playerCycles lobby2 = playerCycles lobby.
Proof. unfold after_answer, eliminate. destruct (_ <=? 0); simpl; auto 10. Qed.

(** ** The inactivity monitor *)

Lemma without_removes uid ps : existsb (has_id uid) (without uid ps) = false.
Proof.
  induction ps as [|p r IH]; [reflexivity|]. unfold without in *. simpl.
  destruct (has_id uid p) eqn:Hp; simpl; [exact IH|]. now rewrite Hp, IH.
Qed.

(** One firing below the limit: the counter goes up by one, a warning is
    sent to the socket, and nothing else changes. *)
Lemma timeout_warns model w now userId sock user :
  users w !! userId = Some user ->
  warningCount user + 1 < MAX_WARNINGS ->
  inactivity_timeout model w now userId sock =
  (set_users (<[userId := set_warning (warningCount user + 1) (penaltyEndTime user) user]>
                (users w)) w,
   [inactivityWarning (socket_id sock) (warningCount user + 1) MAX_WARNINGS]).
Proof.
  intros Hu Hlt. unfold inactivity_timeout. rewrite Hu. cbn zeta.
  now replace (MAX_WARNINGS <=? warningCount user + 1) with false
    by (symmetry; apply Z.leb_gt; exact Hlt).
Qed.

(** One firing that reaches the limit, with [Lobby] undefined: the penalty
    is announced to the socket, and the callback throws before it saves
    anything. *)
Lemma timeout_throws w now userId sock user :
  users w !! userId = Some user ->
  MAX_WARNINGS <= warningCount user + 1 ->
  inactivity_timeout Wiring.LobbyModel w now userId sock =
  (w, [penaltyApplied (socket_id sock) PENALTY_DURATION_MS]).
Proof.
  intros Hu Hge. unfold inactivity_timeout. rewrite Hu. cbn zeta.
  now replace (MAX_WARNINGS <=? warningCount user + 1) with true
    by (symmetry; apply Z.leb_le; exact Hge).
Qed.

(** One firing that reaches the limit, with [Lobby] bound: counter and
    penalty. *)
Lemma timeout_penalizes w now userId sock user :
  users w !! userId = Some user ->
  MAX_WARNINGS <= warningCount user + 1 ->
  users (fst (inactivity_timeout Bound w now userId sock)) !! userId =
  Some (set_warning 0 (Some (now + PENALTY_DURATION_MS)) user).
Proof.
  intros Hu Hge. unfold inactivity_timeout. rewrite Hu. cbn zeta.
  replace (MAX_WARNINGS <=? warningCount user + 1) with true
    by (symmetry; apply Z.leb_le; exact Hge).
  destruct (findOne _ _) as [[i l]|]; [destruct (_ =? _)%nat|]; simpl;
    apply lookup_insert_eq.
Qed.

(** C8.  With [Lobby] undefined in [server.js], the escalation stops short
    of the penalty.  When the inactivity timer of a user fires, the warning
    counter is taken one up.  If that makes it less than 3, the new count
    is stored, one [inactivityWarning] goes to the session, and no lobby
    and no penalty expiry changes.  If that makes it 3 or more,
    [penaltyApplied] is sent to the session and the callback throws at
    [Lobby.findOne], before the user is saved: nothing is stored, so the
    counter is not reset, no penalty expiry is set, and nobody is removed
    from any lobby.  From a counter of 0, three firings in a row leave the
    counter at 1, at 2 and at 2, with the penalty expiry as it was. *)
Theorem inactivity_penalty_never_stored w now userId sock user :
  users w !! userId = Some user ->
  let w' := fst (inactivity_timeout Wiring.LobbyModel w now userId sock) in
  let evs := snd (inactivity_timeout Wiring.LobbyModel w now userId sock) in
  let count := warningCount user + 1 in
  (count < 3 ->
     users w' !! userId = Some (set_warning count (penaltyEndTime user) user) /\
     lobbies w' = lobbies w /\
     evs = [inactivityWarning (socket_id sock) count 3]) /\
  (3 <= count ->
     w' = w /\ evs = [penaltyApplied (socket_id sock) 60000]) /\
  (forall other, other <> userId -> users w' !! other = users w !! other) /\
  (warningCount user = 0 ->
   forall t2 t3 s2 s3,
     let w2 := fst (inactivity_timeout Wiring.LobbyModel w' t2 userId s2) in
     let w3 := fst (inactivity_timeout Wiring.LobbyModel w2 t3 userId s3) in
     (warningCount <$> users w' !! userId) = Some 1 /\
     (warningCount <$> users w2 !! userId) = Some 2 /\
     (warningCount <$> users w3 !! userId) = Some 2 /\
     (penaltyEndTime <$> users w3 !! userId) = Some (penaltyEndTime user) /\
     lobbies w3 = lobbies w).
Proof.
  intros Hu w' evs count. split; [|split; [|split]].
  - intros Hlt. unfold w', evs.
    rewrite (timeout_warns _ w now userId sock user Hu) by (unfold MAX_WARNINGS; lia).
    simpl. rewrite lookup_insert_eq. auto.
  - intros Hge. unfold w', evs.
    rewrite (timeout_throws w now userId sock user Hu) by (unfold MAX_WARNINGS; lia).
    auto.
  - intros other Hne. unfold w'.
    destruct (Z_lt_le_dec (warningCount user + 1) MAX_WARNINGS) as [Hlt | Hge].
    + rewrite (timeout_warns _ w now userId sock user Hu Hlt). simpl.
      now rewrite lookup_insert_ne.
    + now rewrite (timeout_throws w now userId sock user Hu Hge).
  - intros H0 t2 t3 s2 s3 w2 w3.
    assert (E1 : w' = set_users (<[userId := set_warning 1 (penaltyEndTime user) user]>
                                   (users w)) w).
    { unfold w'.
      rewrite (timeout_warns _ w now userId sock user Hu)
        by (unfold MAX_WARNINGS; lia).
      simpl. now rewrite H0. }
    assert (H1 : users w' !! userId =
                 Some (set_warning 1 (penaltyEndTime user) user)).
    { rewrite E1. simpl. apply lookup_insert_eq. }
    assert (E2 : w2 = set_users
                   (<[userId := set_warning 2 (penaltyEndTime user)
                                  (set_warning 1 (penaltyEndTime user) user)]>
                      (users w')) w').
    { unfold w2.
      rewrite (timeout_warns _ w' t2 userId s2 _ H1)
        by (unfold MAX_WARNINGS; simpl; lia).
      reflexivity. }
    assert (H2 : users w2 !! userId =
                 Some (set_warning 2 (penaltyEndTime user)
                         (set_warning 1 (penaltyEndTime user) user))).
    { rewrite E2. simpl. apply lookup_insert_eq. }
    assert (E3 : w3 = w2).
    { unfold w3.
      now rewrite (timeout_throws w2 t3 userId s3 _ H2)
        by (unfold MAX_WARNINGS; simpl; lia). }
    rewrite E3, H1, H2. simpl. repeat split; try reflexivity.
    rewrite E2, E1. reflexivity.
Qed.

(** The escalation as the callback is written, which is what happens with
    [Lobby] bound: the firing that brings the counter to 3 stores the
    counter as 0 and the penalty expiry as [now] + 60000 ms, and the first
    in-progress lobby found for the user loses the user: it is deleted when
    no human is left in it and saved without the user otherwise, no other
    lobby changing. *)
Lemma bound_inactivity_escalation w now userId sock user :
  users w !! userId = Some user ->
  3 <= warningCount user + 1 ->
  let w' := fst (inactivity_timeout Bound w now userId sock) in
  let evs := snd (inactivity_timeout Bound w now userId sock) in
  users w' !! userId = Some (set_warning 0 (Some (now + 60000)) user) /\
  head evs = Some (penaltyApplied (socket_id sock) 60000) /\
  match findOne (in_game_of userId) (lobbies w) with
  | None => lobbies w' = lobbies w /\ evs = [penaltyApplied (socket_id sock) 60000]
  | Some (i, l) =>
      let l' := set_players (without userId (players l)) l in
      existsb (has_id userId) (players l') = false /\
      In (kickedFromGame (socket_id sock) "inactivity") evs /\
      if (length (humans (players l')) =? 0)%nat
      then lobbies w' = delete i (lobbies w)
      else lobbies w' = <[i := l']> (lobbies w)
  end.
Proof.
  intros Hu Hge w' evs. split.
  { apply (timeout_penalizes w now userId sock user Hu). unfold MAX_WARNINGS. lia. }
  unfold w', evs, inactivity_timeout. rewrite Hu. cbn zeta.
  replace (MAX_WARNINGS <=? warningCount user + 1) with true
    by (symmetry; apply Z.leb_le; unfold MAX_WARNINGS; lia).
  destruct (findOne _ _) as [[i l]|].
  - cbn zeta. cbn [players set_players]. rewrite without_removes.
    destruct (_ =? _)%nat; simpl; auto 10.
  - simpl. auto.
Qed.

(** A timer is armed only for a socket flagged in-game, 30 seconds ahead. *)
Lemma resetInactivityTimer_armed sockets now userId t :
  resetInactivityTimer sockets now userId = Some t ->
  fires_at t = now + 30000 /\
  timer_userId t = userId /\
  isInGame (timer_socket t) = true /\
  socket_userId (timer_socket t) = Some userId.
Proof.
  unfold resetInactivityTimer. intros H.
  destruct (List.find _ sockets) as [s|] eqn:Hs; [|discriminate].
  destruct (isInGame s) eqn:Hg; [|discriminate].
  injection H as <-. simpl. apply find_some in Hs as [_ Hs].
  apply bool_decide_eq_true in Hs. auto.
Qed.

Lemma findOne_None query ls :
  findOne query ls = None <-> Forall (fun l => query l = false) ls.
Proof.
  induction ls as [|l r IH]; simpl.
  - split; [constructor | reflexivity].
  - destruct (query l) eqn:Hq.
    + split; [discriminate|]. intros H. inversion H; congruence.
    + destruct (findOne query r) as [[j l']|].
      * split; [discriminate|]. intros H. inversion H as [|? ? _ Hr].
        apply IH in Hr. discriminate.
      * split; [|reflexivity]. intros _. constructor; [exact Hq|].
        now apply IH.
Qed.

(** ** The lives invariant *)

Lemma lives_inv_not_started l : gameStarted l = false -> lives_inv l.
Proof. intros H Hs. congruence. Qed.

(** A lobby whose players all carry the lives of players of [l]. *)
Lemma lives_inv_sub l l' :
  lives_inv l ->
  gameStarted l' = gameStarted l ->
  (forall p, In p (players l') ->
     exists p0, In p0 (players l) /\ p_lives p = p_lives p0) ->
  lives_inv l'.
Proof.
  intros Hinv Hst Hsub Hs. rewrite Hst in Hs.
  destruct (Hinv Hs) as [Hall | Hall]; [left | right];
    apply List.Forall_forall; intros p Hp;
    destruct (Hsub p Hp) as (p0 & Hp0 & ->);
    rewrite List.Forall_forall in Hall; now apply Hall.
Qed.

Lemma without_In uid ps p : In p (without uid ps) -> In p ps.
Proof. unfold without. intros H. now apply filter_In in H as [? _]. Qed.

Lemma update_found_In uid f ps p :
  In p (update_found uid f ps) ->
  In p ps \/ exists p0, In p0 ps /\ p = f p0.
Proof.
  induction ps as [|x r IH]; [intros []|]. simpl.
  destruct (has_id uid x); simpl.
  - intros [<- | H]; [right; eauto | left; auto].
  - intros [<- | H]; [left; auto|].
    destruct (IH H) as [? | (p0 & ? & ?)]; [left; auto | right; eauto].
Qed.

Lemma deleteOne_Forall (P : Lobby -> Prop) query ls :
  Forall P ls -> Forall P (deleteOne query ls).
Proof.
  induction 1 as [|l r Hl Hr IH]; [constructor|]. simpl.
  destruct (query l); [assumption | now constructor].
Qed.

Lemma save_Forall (P : Lobby -> Prop) i l ls :
  Forall P ls -> P l -> Forall P (save i l ls).
Proof. apply Forall_insert. Qed.

Lemma create_lobby_inv io w now h hu req sfx rand :
  world_inv w -> world_inv (fst (create_lobby io w now h hu req sfx rand)).
Proof.
  unfold world_inv, create_lobby. intros Hw.
  destruct (users w !! h) as [user|]; [|exact Hw].
  destruct (penalized now user); [exact Hw|].
  unfold insert_lobby. destruct (_ && _)%bool; [|exact Hw]. simpl.
  apply Forall_app. split; [exact Hw|].
  constructor; [|constructor]. now apply lives_inv_not_started.
Qed.

Lemma join_lobby_inv io w now lid u un rand :
  world_inv w -> world_inv (fst (join_lobby io w now lid u un rand)).
Proof.
  unfold world_inv, join_lobby. intros Hw.
  destruct (users w !! u) as [user|]; [|exact Hw].
  destruct (penalized now user); [exact Hw|].
  destruct (findOne _ _) as [[i lobby]|]; [|exact Hw].
  destruct (_ || _)%bool eqn:Hfull; [exact Hw|].
  destruct (existsb _ _); [exact Hw|].
  destruct (negb _); [exact Hw|]. simpl.
  apply save_Forall; [exact Hw|].
  apply lives_inv_not_started. simpl.
  now apply orb_false_iff in Hfull as [_ ?].
Qed.

Lemma leave_lobby_inv io w lid u :
  world_inv w -> world_inv (fst (leave_lobby io w lid u)).
Proof.
  unfold world_inv, leave_lobby. intros Hw.
  destruct (findOne _ _) as [[i lobby]|] eqn:Hfind; [|exact Hw].
  apply findOne_Some in Hfind as [Hi _].
  pose proof (Forall_lookup_1 _ _ _ _ Hw Hi) as Hl.
  assert (Hl1 : lives_inv (set_players (without u (players lobby)) lobby)).
  { apply (lives_inv_sub lobby); [exact Hl | reflexivity|].
    simpl. intros p Hp. exists p. split; [eapply without_In; eauto | reflexivity]. }
  cbn zeta.
  destruct (_ =? _)%nat; [exact Hw|].
  destruct (_ =? _)%nat; [now apply deleteOne_Forall|].
  destruct (String.eqb _ _).
  - destruct (List.find _ _); simpl; [|now apply deleteOne_Forall].
    apply save_Forall; [exact Hw|].
    eapply lives_inv_sub; [exact Hl1 | reflexivity|]. eauto.
  - simpl. now apply save_Forall.
Qed.

Lemma toggle_ready_inv io w lid u :
  world_inv w -> world_inv (fst (toggle_ready io w lid u)).
Proof.
  unfold world_inv, toggle_ready. intros Hw.
  destruct (findOne _ _) as [[i lobby]|] eqn:Hfind; [|exact Hw].
  apply findOne_Some in Hfind as [Hi _].
  pose proof (Forall_lookup_1 _ _ _ _ Hw Hi) as Hl.
  destruct (List.find _ _) as [player|]; [|exact Hw].
  destruct (isRanked lobby); [exact Hw|]. simpl.
  apply save_Forall; [exact Hw|].
  apply (lives_inv_sub lobby); [exact Hl | reflexivity|]. simpl.
  intros q Hq. apply update_found_In in Hq as [Hq | (q0 & Hq0 & ->)]; eauto.
Qed.

Lemma start_game_inv io w lid u deck rand :
  world_inv w -> world_inv (fst (start_game io w lid u deck rand)).
Proof.
  unfold world_inv, start_game. intros Hw.
  destruct (findOne _ _) as [[i lobby]|]; [|exact Hw].
  destruct (negb _); [exact Hw|].
  destruct (_ <? 2); [exact Hw|].
  destruct (negb _); [exact Hw|]. simpl.
  apply save_Forall; [exact Hw|]. intros _. simpl.
  destruct (Z_lt_le_dec 0 (initialLives lobby)); [left | right];
    apply Forall_lookup; intros j p Hj; rewrite list_lookup_imap in Hj;
    destruct (players lobby !! j); try discriminate;
    injection Hj as <-; simpl; lia.
Qed.

Lemma send_chat_inv io w now lid u un text :
  world_inv w -> world_inv (fst (send_chat io w now lid u un text)).
Proof.
  unfold world_inv, send_chat. intros Hw.
  destruct (findOne _ _) as [[i lobby]|] eqn:Hfind; [|exact Hw].
  apply findOne_Some in Hfind as [Hi _].
  pose proof (Forall_lookup_1 _ _ _ _ Hw Hi) as Hl.
  cbn zeta. destruct (negb _); [exact Hw|]. simpl.
  apply save_Forall; [exact Hw|].
  apply (lives_inv_sub lobby); [exact Hl | reflexivity|]. eauto.
Qed.

Lemma buy_item_inv w u req :
  world_inv w -> world_inv (fst (buy_item w u req)).
Proof.
  unfold world_inv, buy_item. intros Hw.
  destruct (users w !! u) as [user|]; [|exact Hw].
  destruct (existsb _ _); [exact Hw|].
  destruct (_ <? _); exact Hw.
Qed.

Lemma inactivity_timeout_inv model w now u sock :
  world_inv w -> world_inv (fst (inactivity_timeout model w now u sock)).
Proof.
  unfold world_inv, inactivity_timeout. intros Hw.
  destruct (users w !! u) as [user|]; [|exact Hw]. cbn zeta.
  destruct (_ <=? _); [|exact Hw].
  destruct model; [|exact Hw].
  destruct (findOne _ _) as [[i lobby]|] eqn:Hfind; [|exact Hw].
  apply findOne_Some in Hfind as [Hi _].
  pose proof (Forall_lookup_1 _ _ _ _ Hw Hi) as Hl.
  destruct (_ =? _)%nat; simpl; [now apply Forall_delete|].
  apply save_Forall; [exact Hw|].
  apply (lives_inv_sub lobby); [exact Hl | reflexivity|].
  simpl. intros p Hp. exists p. split; [eapply without_In; eauto | reflexivity].
Qed.

Lemma resolve_player_lives_le correct p :
  p_lives (resolve_player correct p) <= p_lives p.
Proof. simpl. destruct (actualIsCorrect correct p); lia. Qed.

Lemma after_answer_In uid correct cur lobby p :
  In p (players (after_answer uid correct cur lobby)) ->
  In p (players lobby) \/
  exists p0, In p0 (players lobby) /\ p = resolve_player correct p0.
Proof.
  unfold after_answer, eliminate. intros H.
  destruct (_ <=? 0); simpl in H; [apply without_In in H|];
    now apply update_found_In in H.
Qed.

(** A roster without lives stays without lives. *)
Lemma after_answer_all_out uid correct cur lobby :
  Forall (fun p => p_lives p <= 0) (players lobby) ->
  Forall (fun p => p_lives p <= 0) (players (after_answer uid correct cur lobby)).
Proof.
  intros Hall. rewrite List.Forall_forall in Hall.
  apply List.Forall_forall. intros p Hp.
  apply after_answer_In in Hp as [Hp | (p0 & Hp0 & ->)].
  - now apply Hall.
  - pose proof (resolve_player_lives_le correct p0). apply Hall in Hp0. lia.
Qed.

Lemma update_found_Forall (P : Player -> Prop) uid f ps cur :
  Forall P ps ->
  List.find (has_id uid) ps = Some cur ->
  P (f cur) ->
  Forall P (update_found uid f ps).
Proof.
  intros Hall Hcur Hf. induction Hall as [|p r Hp Hr IH]; [constructor|].
  simpl in *. destruct (has_id uid p).
  - injection Hcur as ->. now constructor.
  - constructor; auto.
Qed.

Lemma without_update_found_Forall (P : Player -> Prop) uid f ps :
  (forall p, p_id (f p) = p_id p) ->
  Forall P ps ->
  Forall P (without uid (update_found uid f ps)).
Proof.
  intros Hid Hall. induction Hall as [|p r Hp Hr IH]; [constructor|].
  simpl. destruct (has_id uid p) eqn:Hh; unfold without in *; simpl.
  - unfold has_id in *. rewrite Hid, Hh. simpl.
    apply List.Forall_forall. intros x Hx. apply filter_In in Hx as [Hx _].
    rewrite List.Forall_forall in Hr. now apply Hr.
  - rewrite Hh. simpl. now constructor.
Qed.

(** A roster that is all alive is all alive after the answer: the player
    who answered either keeps a life or is removed. *)
Lemma after_answer_alive uid correct cur lobby :
  Forall (fun p => 0 < p_lives p) (players lobby) ->
  List.find (has_id uid) (players lobby) = Some cur ->
  Forall (fun p => 0 < p_lives p) (players (after_answer uid correct cur lobby)).
Proof.
  intros Hall Hcur. unfold after_answer, eliminate.
  destruct (_ <=? 0) eqn:Hout; simpl.
  - apply find_has_id in Hcur as [<- _].
    now apply without_update_found_Forall.
  - apply Z.leb_gt in Hout. eapply update_found_Forall; eauto.
Qed.

Lemma humans_length ps : (length (humans ps) <= length ps)%nat.
Proof. apply filter_length_le. Qed.

Lemma index_map {A B} (f : A -> B) (arr : list A) i :
  JS.index (map f arr) i = f <$> JS.index arr i.
Proof.
  unfold JS.index. destruct (i <? 0); [reflexivity|].
  apply (list_lookup_fmap f arr).
Qed.

(** From a lobby satisfying the lives invariant, a turn that is resolved
    and leaves the game in progress ends with a roster that is all alive
    and a player index on one of its players. *)
Lemma resolve_turn_in_progress w i lobby uid cur question ans rand w' r m l' :
  gameStarted lobby = true ->
  List.find (has_id uid) (players lobby) = Some cur ->
  0 <= currentPlayerIndex lobby ->
  resolve_turn Bound w i lobby uid cur question ans rand = (w', Returned r) ->
  body r = MsgLobby m l' ->
  gameStarted l' = true ->
  (exists p, JS.index (players l') (currentPlayerIndex l') = Some p /\
             0 < p_lives p) /\
  (lives_inv lobby -> Forall (fun p => 0 < p_lives p) (players l')).
Proof.
  intros Hst Hcur Hidx H Hbody Hprog. unfold resolve_turn in H.
  set (correct := isCorrect ans question) in *.
  set (lobby2 := after_answer uid correct cur lobby) in *.
  destruct (JS.len (humans (players lobby2)) <=? 1) eqn:Hhum.
  { injection H as <- <-. simpl in Hbody. injection Hbody as <- <-.
    discriminate. }
  apply Z.leb_gt in Hhum.
  assert (Hlen : 0 < JS.len (players lobby2)).
  { pose proof (humans_length (players lobby2)). unfold JS.len in *. lia. }
  destruct (skip_eliminated _ _ _) as [j|] eqn:Hskip; [|discriminate].
  injection H as <- <-. simpl in Hbody. injection Hbody as <- <-.
  destruct (skip_eliminated_Some _ _ _ _ Hskip) as [Hj Hr].
  assert (Hjr : 0 <= j < JS.len (players lobby2)).
  { apply Hr, next_index_range; [|exact Hlen].
    unfold lobby2. now rewrite after_answer_index. }
  destruct (index_in_range _ _ Hjr) as [p Hp].
  assert (Hpl : 0 < p_lives p).
  { unfold eliminated_at in Hj. rewrite Hp in Hj. now apply Z.leb_gt in Hj. }
  assert (Halive : lives_inv lobby ->
                   Forall (fun p => 0 < p_lives p) (players lobby2)).
  { intros Hinv. destruct (Hinv Hst) as [Hall | Hall].
    - now apply after_answer_alive.
    - apply (after_answer_all_out uid correct cur) in Hall. fold lobby2 in Hall.
      apply index_Some in Hp as [_ Hp].
      eapply Forall_lookup_1 in Hall; eauto. simpl in Hall. lia. }
  rewrite count_cycle_index.
  cbn [currentPlayerIndex next_question set_currentQuestionIndex
       set_currentPlayerIndex].
  match goal with
  | |- context [count_cycle ?t ?n ?l] =>
      destruct (count_cycle_players t n l) as [Hps | Hps]
  end; rewrite Hps; cbn [players next_question set_currentQuestionIndex
                          set_currentPlayerIndex].
  - split; [eauto | exact Halive].
  - split.
    + unfold deal_to_all. rewrite index_map, Hp. simpl. eauto.
    + intros Hinv. unfold deal_to_all. apply List.Forall_map.
      eapply List.Forall_impl; [|exact (Halive Hinv)]. auto.
Qed.

Lemma submit_answer_inv io w lid u ans rand :
  world_inv w -> world_inv (fst (submit_answer io w lid u ans rand)).
Proof.
  unfold world_inv, submit_answer. intros Hw.
  destruct (findOne _ _) as [[i lobby]|] eqn:Hfind; [|exact Hw].
  apply findOne_Some in Hfind as [Hi _].
  pose proof (Forall_lookup_1 _ _ _ _ Hw Hi) as Hl.
  destruct (negb _) eqn:Hst; [exact Hw|]. apply negb_false_iff in Hst.
  destruct (List.find _ _) as [cur|] eqn:Hcur; [|exact Hw].
  destruct (JS.index (players lobby) _) as [inTurn|] eqn:Hidx; [|exact Hw].
  apply index_range in Hidx.
  destruct (negb _); [exact Hw|].
  destruct (JS.index (questions lobby) _) as [question|]; [|exact Hw].
  destruct io; [|exact Hw].
  destruct (resolve_turn Bound w i lobby u cur question ans rand) as [w' out] eqn:H.
  pose proof H as H'. unfold resolve_turn in H'.
  destruct (_ <=? 1).
  - injection H' as <- _. simpl. apply save_Forall; [exact Hw|].
    now apply lives_inv_not_started.
  - destruct (skip_eliminated _ _ _) as [j|]; injection H' as <- Hout;
      [|exact Hw].
    subst out. simpl. apply save_Forall; [exact Hw|]. intros Hprog. left.
    eapply (resolve_turn_in_progress w i lobby u cur question ans rand);
      [exact Hst | exact Hcur | lia | exact H | reflexivity
      | exact Hprog | exact Hl].
Qed.

(** Every step keeps the lives invariant. *)
Lemma step_inv w w' : step w w' -> world_inv w -> world_inv w'.
Proof.
  destruct 1; intros Hw.
  - now apply create_lobby_inv.
  - now apply join_lobby_inv.
  - now apply leave_lobby_inv.
  - now apply toggle_ready_inv.
  - now apply start_game_inv.
  - now apply submit_answer_inv.
  - now apply send_chat_inv.
  - now apply buy_item_inv.
  - now apply inactivity_timeout_inv.
  - exact Hw.
Qed.

(** Every lobby of a reachable world satisfies the lives invariant. *)
Lemma reachable_inv w : reachable w -> world_inv w.
Proof.
  intros [us Hrun].
  revert w Hrun. apply rtc_ind_r.
  - constructor.
  - intros w1 w2 _ Hstep IH. eapply step_inv; eauto.
Qed.

(** With [io] bound, whenever an answer is resolved and the lobby returned
    is still in progress, that lobby is the one saved and
    [currentPlayerIndex] is the index of a player of its roster with lives
    above 0; and in a world the server can reach, every player in that
    roster has lives above 0. *)
Lemma bound_turn_lands_on_live_player w lid userId ans rand w' r m lobby' :
  submit_answer Bound w lid userId ans rand = (w', Returned r) ->
  body r = MsgLobby m lobby' ->
  gameStarted lobby' = true ->
  In lobby' (lobbies w') /\
  (exists p,
     JS.index (players lobby') (currentPlayerIndex lobby') = Some p /\
     0 < p_lives p) /\
  (reachable w -> Forall (fun p => 0 < p_lives p) (players lobby')).
Proof.
  intros H Hbody Hprog. unfold submit_answer in H.
  destruct (findOne _ _) as [[i lobby]|] eqn:Hfind;
    [|rejected H].
  apply findOne_Some in Hfind as [Hi _].
  destruct (negb _) eqn:Hst; [rejected H|].
  apply negb_false_iff in Hst.
  destruct (List.find _ _) as [cur|] eqn:Hcur;
    [|rejected H].
  destruct (JS.index (players lobby) _) as [inTurn|] eqn:Hidx;
    [|rejected H].
  apply index_range in Hidx.
  destruct (negb _); [rejected H|].
  destruct (JS.index (questions lobby) _) as [question|];
    [|rejected H].
  split.
  - pose proof H as H'. unfold resolve_turn in H'.
    destruct (_ <=? 1).
    + injection H' as <- <-. simpl in Hbody. injection Hbody as <- <-.
      discriminate.
    + destruct (skip_eliminated _ _ _) as [j|]; [|discriminate].
      injection H' as <- <-. simpl in Hbody. injection Hbody as <- <-.
      simpl. apply list_elem_of_In. eapply list_elem_of_lookup_2.
      eapply save_lookup. exact Hi.
  - destruct (resolve_turn_in_progress w i lobby userId cur question ans rand
                w' r m lobby') as [Hp Hall]; try assumption; [lia|].
    split; [exact Hp|]. intros Hreach. apply Hall.
    apply reachable_inv in Hreach.
    exact (Forall_lookup_1 _ _ _ _ Hreach Hi).
Qed.

(** ** When the route returns *)

(** With somebody alive in the roster left by the answer, the route
    answers. *)
Lemma resolve_turn_returns w i lobby uid cur question ans rand :
  0 <= currentPlayerIndex lobby ->
  Exists (fun p => 0 < p_lives p)
         (players (after_answer uid (isCorrect ans question) cur lobby)) ->
  snd (resolve_turn Bound w i lobby uid cur question ans rand) <> Hang.
Proof.
  intros Hidx Hex. unfold resolve_turn.
  set (lobby2 := after_answer uid (isCorrect ans question) cur lobby) in *.
  destruct (_ <=? 1); [discriminate|].
  assert (Hlen : 0 < JS.len (players lobby2)).
  { apply Exists_exists in Hex as [p [Hp _]].
    apply list_elem_of_In in Hp. unfold JS.len.
    destruct (players lobby2); [destruct Hp | simpl; lia]. }
  destruct (skip_eliminated_finds (players lobby2)
              (next_index (players lobby2) (currentPlayerIndex lobby2)))
    as (j & p & Hj & _); [|exact Hex|].
  - apply next_index_range; [|exact Hlen].
    unfold lobby2. now rewrite after_answer_index.
  - rewrite Hj. discriminate.
Qed.

(** ** The deck *)

Lemma insert_at_Permutation {A} n (x : A) l : Permutation (insert_at n x l) (x :: l).
Proof.
  unfold insert_at. rewrite <- Permutation_middle.
  now rewrite firstn_skipn.
Qed.

(** The deck of a started game is a permutation of the question bank. *)
Lemma shuffle_Permutation {A} rand k (l : list A) : Permutation (shuffle rand k l) l.
Proof.
  revert k. induction l as [|x r IH]; intros k; simpl; [constructor|].
  rewrite insert_at_Permutation. now constructor.
Qed.

(** * The properties on sample data *)

Section Samples.
Import Sample.

Lemma duel_in_turn :
  in_turn (world_of duel) "L" "u1" 0 duel (seat "u1" "ann" human 3 0) first_question.
Proof.
  repeat split; try reflexivity.
  eexists. split; reflexivity.
Defined.

(** C1 as stated fails.  In the game [duel] it is ann's turn and the
    question asks for "4".  The answer " 4 " differs from it by surrounding
    blanks only, so it is raw-correct as the specification has it, and the
    comparison of the route judges it wrong. *)
Lemma padded_answer_judged_wrong :
  in_turn (world_of duel) "L" "u1" 0 duel (seat "u1" "ann" human 3 0) first_question /\
  spec_raw_correct " 4 " (a first_question) = true /\
  isCorrect " 4 " first_question = false.
Proof. split; [exact duel_in_turn | vm_compute; split; reflexivity]. Qed.

Lemma raw_correctness_untrimmed_witness :
  isCorrect "CONST" keyword_question = true /\
  (isCorrect " const " keyword_question = true <-> JS.trim " const " = " const ").
Proof.
  destruct (raw_correctness_untrimmed "CONST" keyword_question eq_refl eq_refl)
    as [H _].
  destruct (raw_correctness_untrimmed " const " keyword_question eq_refl eq_refl)
    as (_ & H' & _).
  split; [rewrite H; reflexivity | exact (H' eq_refl)].
Defined.

Lemma host_rejoin_rejected_witness :
  join_lobby Wiring.io created 5 arena "u1" "ann" no_draws =
    (created, reply 400 (Msg "Lobby is full or game has started")).
Proof.
  eassert (Hc : lobbies (fst (create_lobby Wiring.io empty_world 0 "u1" "ann"
                                ranked_req "abc" no_draws)) =
                lobbies empty_world ++ [_]) by (vm_compute; reflexivity).
  destruct (host_rejoin_rejected Wiring.io Wiring.io _ _ _ _ _ _ _ _ Hc) as [_ H].
  exact (H 5 ann "ann" no_draws eq_refl eq_refl).
Defined.

(** The started game of the sample run is one the server reaches as it is
    wired. *)
Lemma started_reachable : reachable started.
Proof.
  exists people.
  eapply rtc_l;
    [exact (step_create Wiring.io empty_world 0 "u1" "ann" ranked_req "abc" no_draws)|].
  eapply rtc_l;
    [exact (step_start Wiring.io created arena "u1" no_draws no_draws)|].
  apply rtc_refl.
Defined.




Lemma last_stand_in_turn :
  in_turn (world_of last_stand) "L" "u1" 0 last_stand
          (seat "u1" "ann" human 1 0) first_question.
Proof.
  repeat split; try reflexivity.
  eexists. split; reflexivity.
Defined.

(** In the started game of the sample run it is ann's turn. *)
Lemma started_in_turn :
  in_turn started arena "u1" 0 arena_started ann_seat first_question.
Proof.
  split; [vm_compute; reflexivity|]. split; [reflexivity|].
  split; [vm_compute; reflexivity|].
  split; [eexists; split; vm_compute; reflexivity | vm_compute; reflexivity].
Defined.

Lemma game_never_ends_witness :
  (snd (submit_answer Wiring.io started arena "u1" "4" 0) = server_error /\
   lobbies (fst (submit_answer Wiring.io started arena "u1" "4" 0)) !! 0%nat =
     Some arena_started /\
   gameStarted arena_started = true) /\
  (snd (submit_answer Wiring.io (world_of last_stand) "L" "u1" "5" 0) = server_error /\
   lobbies (fst (submit_answer Wiring.io (world_of last_stand) "L" "u1" "5" 0)) !! 0%nat =
     Some last_stand).
Proof.
  destruct (game_never_ends started arena "u1" "4" 0 0
              arena_started ann_seat first_question
              started_in_turn ltac:(vm_compute; lia))
    as (Hout & Hl & Hst & _).
  destruct (game_never_ends (world_of last_stand) "L" "u1" "5" 0 0
              last_stand (seat "u1" "ann" human 1 0) first_question
              last_stand_in_turn ltac:(vm_compute; lia))
    as (Hout' & Hl' & _).
  split; [split; [exact Hout | split; [exact Hl | exact Hst]]|].
  split; [exact Hout' | exact Hl'].
Defined.

Lemma created_can_start :
  exists lobby, can_start created arena "u1" 0 lobby.
Proof.
  eexists. split; [vm_compute; reflexivity|].
  split; [reflexivity|]. split; [vm_compute; discriminate | reflexivity].
Defined.


(** C7 as stated fails: for a request with capacity 0 the lobby is stored,
    with the host as its only player. *)
Lemma capacity_zero_lobby_created :
  cr_maxPlayers no_seat_req < 1 /\
  map (fun l => (lobbyId l, maxPlayers l, map p_id (players l)))
      (lobbies (fst (create_lobby Wiring.io empty_world 0 "u1" "ann" no_seat_req
                       "abc" no_draws))) =
    [("custom_qna-abc", 0, ["u1"])].
Proof. vm_compute. split; reflexivity. Qed.

Lemma create_lobby_validation_witness :
  create_lobby Wiring.io empty_world 0 "u1" "ann" odd_mode_req "abc" no_draws =
    (empty_world, server_error).
Proof.
  destruct (create_lobby_validation Wiring.io empty_world 0 "u1" "ann" odd_mode_req
              "abc" no_draws) as [H _].
  destruct (H eq_refl) as (Hw & _ & Hout).
  rewrite (surjective_pairing (create_lobby _ _ _ _ _ _ _ _)), Hw.
  now rewrite (Hout ann eq_refl eq_refl).
Defined.

Lemma inactivity_penalty_never_stored_witness :
  fst (inactivity_timeout Wiring.LobbyModel idle_world 1000 "u3" session) = idle_world.
Proof.
  destruct (inactivity_penalty_never_stored idle_world 1000 "u3" session cal eq_refl)
    as (_ & H & _).
  exact (proj1 (H ltac:(simpl; lia))).
Defined.

Lemma leave_non_member_rejected_witness :
  leave_lobby Wiring.io (world_of duel) "L" "u3" =
    (world_of duel, reply 400 (Msg "User not found in lobby")).
Proof.
  destruct (leave_non_member_rejected Wiring.io (world_of duel) "L" "u3" 0 duel
              eq_refl eq_refl) as [H _].
  exact H.
Defined.

Lemma ann_wallet_ok : wallet_ok ann.
Proof.
  split; [simpl; lia|]. apply NoDup_singleton.
Defined.

Lemma buy_item_preserves_wallet_witness :
  exists user',
    users (fst (buy_item empty_world "u1" cape)) !! "u1" = Some user' /\
    wallet_ok user'.
Proof.
  destruct (buy_item_preserves_wallet empty_world "u1" cape ann eq_refl
              ann_wallet_ok) as (_ & _ & H).
  exact H.
Defined.

End Samples.

(** * Further properties of the routes *)

(** ** The lobby collection, continued *)

Lemma findOne_insert query ls i l l' :
  findOne query ls = Some (i, l) ->
  query l' = true ->
  findOne query (<[i := l']> ls) = Some (i, l').
Proof.
  revert i. induction ls as [|x r IH]; intros i H Hq; simpl in H; [discriminate|].
  destruct (query x) eqn:Hx.
  - injection H as <- <-. simpl. now rewrite Hq.
  - destruct (findOne query r) as [[j y]|] eqn:Hr; [|discriminate].
    injection H as <- <-. simpl. rewrite Hx.
    now rewrite (IH j eq_refl Hq).
Qed.

Lemma findOne_save lid ls i l l' :
  findOne (has_lobbyId lid) ls = Some (i, l) ->
  lobbyId l' = lobbyId l ->
  findOne (has_lobbyId lid) (save i l' ls) = Some (i, l').
Proof.
  intros H Hid. apply findOne_insert with (l := l); [exact H|].
  apply findOne_Some in H as [_ H]. unfold has_lobbyId in *. now rewrite Hid.
Qed.

(** ** Creating a lobby, continued *)

(** X1.  The create route always answers, and never with 201.  Either it
    writes nothing and answers 404, 403 or 500; or it appends one lobby,
    not started, hosted by the requester, under an id that was not in use,
    and then throws at its emit and answers 500 "Server error" all the
    same.  Users and the lobbies already there are as they were. *)
Theorem create_lobby_frame w now host hu req sfx rand :
  let w' := fst (create_lobby Wiring.io w now host hu req sfx rand) in
  let out := snd (create_lobby Wiring.io w now host hu req sfx rand) in
  (exists code b, out = reply code b /\ (code = 404 \/ code = 403 \/ code = 500)) /\
  users w' = users w /\
  (w' = w \/
   exists l,
     out = server_error /\
     lobbies w' = lobbies w ++ [l] /\
     gameStarted l = false /\
     hostId l = host /\
     existsb (has_lobbyId (lobbyId l)) (lobbies w) = false).
Proof.
  intros w' out. unfold w', out.
  destruct (create_lobby_cases Wiring.io w now host hu req sfx rand)
    as [[E Hout] | (user & _ & _ & _ & Hfresh & E)].
  - rewrite E. split; [exact Hout|]. split; [reflexivity | now left].
  - rewrite E, emit_then_undefined. cbn [fst snd].
    split; [eexists 500, _; eauto|]. split; [reflexivity|].
    right. eexists. split; [reflexivity|]. split; [reflexivity|].
    split; [reflexivity|]. split; [reflexivity | exact Hfresh].
Qed.

(** X2. The lobby the create route builds seats the host first, as the
    only human, ready exactly in a ranked lobby, followed by bots that are
    all ready; the roster has [maxPlayers] players, and one when
    [maxPlayers] is below 1; every player starts with the lobby's initial
    lives, no shield, and a hand of 3 cards in frenzy mode and of none
    otherwise. *)
Theorem created_roster_shape h hu user req sfx rand :
  let l := newLobby h hu user req sfx rand in
  JS.len (players l) = Z.max 1 (cr_maxPlayers req) /\
  (exists p bots,
     players l = p :: bots /\
     p_id p = h /\ p_type p = human /\ p_isReady p = isRanked l /\
     Forall (fun b => p_type b = bot /\ p_isReady b = true) bots) /\
  map p_id (humans (players l)) = [h] /\
  Forall (fun p =>
            p_lives p = initialLives l /\
            p_shields p = 0 /\
            length (p_cards p) = if isFrenzyMode l then 3%nat else 0%nat)
         (players l).
Proof.
  intros l. split; [apply newLobby_length|].
  unfold l, newLobby. cbn [players isRanked isFrenzyMode initialLives].
  set (bots := map _ (seq 1 _)).
  assert (Hbots : Forall (fun b => p_type b = bot /\ p_isReady b = true /\
                    p_lives b = cr_initialLives req /\ p_shields b = 0 /\
                    length (p_cards b) =
                      if cr_isFrenzyMode req then 3%nat else 0%nat) bots).
  { unfold bots. apply List.Forall_map. apply List.Forall_forall.
    intros i _. simpl. rewrite getStartingCards_length. auto. }
  split; [|split].
  - eexists _, bots. split; [reflexivity|]. simpl.
    split; [reflexivity|]. split; [reflexivity|]. split; [reflexivity|].
    eapply List.Forall_impl; [|exact Hbots]. simpl. tauto.
  - unfold humans. simpl. f_equal.
    assert (Hnone : List.filter (fun p => is_human (p_type p)) bots = []).
    { clear -Hbots. induction Hbots as [|b r (Hb & _) _ IH]; [reflexivity|].
      simpl. now rewrite Hb. }
    now rewrite Hnone.
  - constructor.
    + simpl. rewrite getStartingCards_length. auto.
    + eapply List.Forall_impl; [|exact Hbots]. simpl. tauto.
Qed.

(** X3.  A lobby comes out of the create route with every seat taken: on
    the world in which the route has stored it, a join request for the new
    lobby, by anyone and at any time, changes nothing and is answered with
    an error, which is 400 "Lobby is full or game has started" for an
    existing, unpenalised user. *)
Theorem fresh_lobby_is_full io io' w now host hu req sfx rand l :
  lobbies (fst (create_lobby io w now host hu req sfx rand)) = lobbies w ++ [l] ->
  let w' := fst (create_lobby io w now host hu req sfx rand) in
  forall now' userId uname rand',
    fst (join_lobby io' w' now' (lobbyId l) userId uname rand') = w' /\
    (exists r,
       snd (join_lobby io' w' now' (lobbyId l) userId uname rand') = Returned r /\
       400 <= status r) /\
    (forall user,
       users w' !! userId = Some user -> penalized now' user = false ->
       snd (join_lobby io' w' now' (lobbyId l) userId uname rand') =
         reply 400 (Msg "Lobby is full or game has started")).
Proof.
  intros H w' now' userId uname rand'.
  destruct (create_lobby_stored _ _ _ _ _ _ _ _ _ H)
    as (owner & _ & _ & Hl & Hfresh & E).
  assert (Hfind : findOne (has_lobbyId (lobbyId l)) (lobbies w') =
                  Some (length (lobbies w), l)).
  { unfold w'. rewrite H.
    apply findOne_app_fresh; [exact Hfresh | apply has_lobbyId_refl]. }
  assert (Hfull : (maxPlayers l <=? JS.len (players l)) = true).
  { rewrite Hl. apply newLobby_full. }
  unfold join_lobby.
  destruct (users w' !! userId) as [u|].
  - destruct (penalized now' u) eqn:Hpen.
    + split; [reflexivity|].
      split; [eexists; split; [reflexivity | simpl; lia]|].
      intros u' [= <-] Hp. congruence.
    + rewrite Hfind, Hfull. simpl.
      split; [reflexivity|].
      split; [eexists; split; [reflexivity | simpl; lia] | reflexivity].
  - split; [reflexivity|].
    split; [eexists; split; [reflexivity | simpl; lia]|]. intros u' [=].
Qed.

(** ** Listing lobbies *)

(** X4.  The lobby the create route has stored shows in the unfiltered
    listing exactly when its type does not start with "ranked-", and under
    a type filter exactly when, in addition, the filter is its type. *)
Theorem created_lobby_listing io w now host hu req sfx rand l :
  lobbies (fst (create_lobby io w now host hu req sfx rand)) = lobbies w ++ [l] ->
  let w' := fst (create_lobby io w now host hu req sfx rand) in
  forall type,
    In l (list_lobbies w' type) <->
    JS.startsWith (cr_type req) "ranked-" = false /\
    (type = "" \/ cr_type req = type).
Proof.
  intros H w' type.
  destruct (create_lobby_stored _ _ _ _ _ _ _ _ _ H)
    as (user & _ & _ & Hl & _ & _).
  unfold list_lobbies, w'. rewrite filter_In, H.
  assert (Hst : gameStarted l = false) by now rewrite Hl.
  assert (Hr : isRanked l = JS.startsWith (cr_type req) "ranked-") by now rewrite Hl.
  assert (Hty : l_type l = cr_type req) by now rewrite Hl.
  rewrite Hst, Hr, Hty. simpl. split.
  - intros [_ Hq]. apply andb_true_iff in Hq as [Hq Hrk].
    apply negb_true_iff in Hrk. split; [exact Hrk|].
    apply orb_true_iff in Hq as [Hq | Hq]; apply String.eqb_eq in Hq; auto.
  - intros [Hrk Hq]. split; [apply in_or_app; right; now left|].
    rewrite Hrk. simpl. rewrite andb_true_r. apply orb_true_iff.
    destruct Hq as [-> | ->]; [left | right]; apply String.eqb_refl.
Qed.

(** ** Joining, continued *)

(** X5.  A join request by an existing, unpenalised user with a non-empty
    id and name, who is not in the roster of a lobby that is below capacity
    and not started, seats the user and is answered 500 all the same: the
    lobby is saved with the old roster followed by the new player, a human
    with the lobby's initial lives, no shield, the user's rating and
    points, ready exactly in a ranked lobby, holding 3 cards in frenzy mode
    and none otherwise; then the route throws at its emit.  The roster
    stays within capacity, and player ids that were distinct stay
    distinct. *)
Theorem join_adds_one_player w now lid userId uname rand i lobby user :
  findOne (has_lobbyId lid) (lobbies w) = Some (i, lobby) ->
  users w !! userId = Some user ->
  penalized now user = false ->
  JS.len (players lobby) < maxPlayers lobby ->
  gameStarted lobby = false ->
  existsb (has_id userId) (players lobby) = false ->
  userId <> "" -> uname <> "" ->
  exists p lobby',
    join_lobby Wiring.io w now lid userId uname rand =
      (set_lobbies (save i lobby' (lobbies w)) w, server_error) /\
    lobby' = set_players (players lobby ++ [p]) lobby /\
    p_id p = userId /\ p_name p = uname /\ p_type p = human /\
    p_isReady p = isRanked lobby /\
    p_lives p = initialLives lobby /\ p_shields p = 0 /\
    p_elo p = u_elo user /\ p_casualPoints p = u_casualPoints user /\
    length (p_cards p) = (if isFrenzyMode lobby then 3%nat else 0%nat) /\
    JS.len (players lobby') <= maxPlayers lobby' /\
    (NoDup (map p_id (players lobby)) -> NoDup (map p_id (players lobby'))).
Proof.
  intros Hfind Hu Hpen Hroom Hst Hnew Hid Hname.
  unfold join_lobby. rewrite Hu, Hpen, Hfind, Hst, Hnew.
  replace (maxPlayers lobby <=? JS.len (players lobby)) with false
    by (symmetry; apply Z.leb_gt; exact Hroom).
  cbn [orb]. unfold valid_player, required. cbn [p_id p_name new_human].
  apply String.eqb_neq in Hid, Hname. rewrite Hid, Hname. cbn [negb andb].
  eexists _, _. split; [reflexivity|]. split; [reflexivity|].
  cbn [p_id p_name p_type p_isReady p_lives p_shields p_elo p_casualPoints
       p_cards new_human players set_players maxPlayers].
  rewrite getStartingCards_length.
  repeat (split; [reflexivity|]). split.
  - unfold JS.len in *. rewrite length_app. simpl. lia.
  - intros Hnd. rewrite map_app. simpl. apply NoDup_app.
    split; [exact Hnd|]. split; [|apply NoDup_singleton].
    intros x Hx Hx'. apply list_elem_of_singleton in Hx'. subst x.
    apply list_elem_of_In, in_map_iff in Hx as (p & Hp & Hin).
    assert (Hex : existsb (has_id userId) (players lobby) = true).
    { apply existsb_exists. exists p. split; [exact Hin|].
      unfold has_id. now apply String.eqb_eq. }
    congruence.
Qed.

(** ** Leaving, continued *)

Lemma deleteOne_delete query ls i l :
  findOne query ls = Some (i, l) -> deleteOne query ls = delete i ls.
Proof.
  revert i. induction ls as [|x r IH]; intros i H; simpl in H; [discriminate|].
  simpl. destruct (query x).
  - now injection H as <- <-.
  - destruct (findOne query r) as [[j y]|] eqn:Hr; [|discriminate].
    injection H as <- <-. simpl. f_equal. now apply IH.
Qed.

Lemma set_hostId_same l : set_hostId (hostId l) l = l.
Proof. now destruct l. Qed.

(** A leave that keeps the lobby: the leaver is out, and the host is the
    first human left when the leaver was the host. *)
Lemma leave_lobby_keeps io w lid userId i lobby h hs :
  findOne (has_lobbyId lid) (lobbies w) = Some (i, lobby) ->
  existsb (has_id userId) (players lobby) = true ->
  humans (without userId (players lobby)) = h :: hs ->
  leave_lobby io w lid userId =
    (set_lobbies
       (save i (set_hostId
                  (if String.eqb (hostId lobby) userId then p_id h else hostId lobby)
                  (set_players (without userId (players lobby)) lobby))
             (lobbies w)) w,
     emit_then io
       (reply 200
          (MsgLobby "Left lobby successfully"
             (set_hostId
                (if String.eqb (hostId lobby) userId then p_id h else hostId lobby)
                (set_players (without userId (players lobby)) lobby))))).
Proof.
  intros Hfind Hmem Hh.
  pose proof (without_member_shorter _ _ Hmem) as Hshort.
  unfold leave_lobby. rewrite Hfind. cbn zeta. cbn [players set_players].
  replace (length (without userId (players lobby)) =? length (players lobby))%nat
    with false by (symmetry; apply Nat.eqb_neq; lia).
  rewrite Hh. cbn [length Nat.eqb]. cbn [hostId set_players].
  destruct (String.eqb (hostId lobby) userId).
  - rewrite find_head_filter. fold (humans (without userId (players lobby))).
    now rewrite Hh.
  - change (hostId lobby)
      with (hostId (set_players (without userId (players lobby)) lobby)).
    now rewrite set_hostId_same.
Qed.

(** X6.  When a player of the roster leaves, the route does its write and
    is answered 500 "Server error" all the same, the emit after the write
    throwing.  If no human is left the lobby document is removed; otherwise
    the lobby is saved without the leaver, with the same host when the
    leaver was not the host, and with the first human of the remaining
    roster as host when the leaver was. *)
Theorem leave_member_outcomes w lid userId i lobby :
  findOne (has_lobbyId lid) (lobbies w) = Some (i, lobby) ->
  existsb (has_id userId) (players lobby) = true ->
  let rest := without userId (players lobby) in
  (humans rest = [] ->
     leave_lobby Wiring.io w lid userId =
       (set_lobbies (delete i (lobbies w)) w, server_error)) /\
  (forall h hs, humans rest = h :: hs ->
     let host' := if String.eqb (hostId lobby) userId then p_id h else hostId lobby in
     let lobby' := set_hostId host' (set_players rest lobby) in
     leave_lobby Wiring.io w lid userId =
       (set_lobbies (save i lobby' (lobbies w)) w, server_error) /\
     existsb (has_id userId) (players lobby') = false).
Proof.
  intros Hfind Hmem rest. split.
  - intros Hnone.
    pose proof (without_member_shorter _ _ Hmem) as Hshort. fold rest in Hshort.
    unfold leave_lobby. rewrite Hfind. cbn zeta.
    cbn [players set_players]. fold rest.
    replace (length rest =? length (players lobby))%nat with false
      by (symmetry; apply Nat.eqb_neq; lia).
    rewrite Hnone. cbn [humans length Nat.eqb].
    now rewrite (deleteOne_delete _ _ _ _ Hfind), emit_then_undefined.
  - intros h hs Hh host' lobby'. split.
    + rewrite (leave_lobby_keeps _ w lid userId i lobby h hs Hfind Hmem Hh).
      now rewrite emit_then_undefined.
    + apply without_removes.
Qed.

(** ** Readiness *)

Lemma update_found_twice uid f ps :
  (forall p, p_id (f p) = p_id p) ->
  (forall p, f (f p) = p) ->
  update_found uid f (update_found uid f ps) = ps.
Proof.
  intros Hid Hinv. induction ps as [|p r IH]; [reflexivity|]. simpl.
  destruct (has_id uid p) eqn:Hp; simpl.
  - unfold has_id in *. now rewrite Hid, Hp, Hinv.
  - now rewrite Hp, IH.
Qed.

Lemma set_players_same l : set_players (players l) l = l.
Proof. now destruct l. Qed.

(** What the ready route does for a player of a lobby that is not
    ranked. *)
Lemma toggle_ready_flips io w lid userId i lobby player :
  findOne (has_lobbyId lid) (lobbies w) = Some (i, lobby) ->
  List.find (has_id userId) (players lobby) = Some player ->
  isRanked lobby = false ->
  toggle_ready io w lid userId =
    (set_lobbies
       (save i (set_players
                  (update_found userId (fun p => set_isReady (negb (p_isReady p)) p)
                                (players lobby)) lobby)
             (lobbies w)) w,
     emit_then io
       (reply 200 (ReadyStatus "Ready status updated" (negb (p_isReady player))))).
Proof. intros Hfind Hp Hr. unfold toggle_ready. now rewrite Hfind, Hp, Hr. Qed.

(** X7.  In a lobby that is not ranked, a player's two ready requests in a
    row cancel out: each flips the flag in the lobby saved, so that the
    world is then what it was; and each is answered 500 "Server error",
    the emit after the save throwing. *)
Theorem toggle_ready_twice w lid userId i lobby player :
  findOne (has_lobbyId lid) (lobbies w) = Some (i, lobby) ->
  List.find (has_id userId) (players lobby) = Some player ->
  isRanked lobby = false ->
  let w1 := fst (toggle_ready Wiring.io w lid userId) in
  snd (toggle_ready Wiring.io w lid userId) = server_error /\
  (exists lobby1 player1,
     lobbies w1 !! i = Some lobby1 /\
     List.find (has_id userId) (players lobby1) = Some player1 /\
     p_isReady player1 = negb (p_isReady player)) /\
  toggle_ready Wiring.io w1 lid userId = (w, server_error).
Proof.
  intros Hfind Hp Hr w1.
  set (flip := fun p => set_isReady (negb (p_isReady p)) p).
  set (lobby1 := set_players (update_found userId flip (players lobby)) lobby).
  pose proof (toggle_ready_flips Wiring.io w lid userId i lobby player Hfind Hp Hr)
    as H1.
  fold flip in H1. fold lobby1 in H1. rewrite emit_then_undefined in H1.
  assert (Hfind1 : findOne (has_lobbyId lid) (lobbies w1) = Some (i, lobby1)).
  { unfold w1. rewrite H1. simpl. now apply findOne_save with (l := lobby). }
  assert (Hp1 : List.find (has_id userId) (players lobby1) = Some (flip player))
    by (simpl; now apply update_found_find).
  split; [now rewrite H1|]. split.
  { exists lobby1, (flip player). split; [|split; [exact Hp1 | reflexivity]].
    now apply findOne_Some in Hfind1. }
  rewrite (toggle_ready_flips Wiring.io w1 lid userId i lobby1 (flip player) Hfind1 Hp1 Hr).
  rewrite emit_then_undefined. f_equal.
  cbn [players lobby1 set_players]. fold flip.
  rewrite update_found_twice.
  - unfold w1. rewrite H1. cbn [fst lobbies set_lobbies].
    replace (set_players (players lobby) lobby1) with lobby
      by (unfold lobby1; now destruct lobby).
    unfold save. rewrite list_insert_insert_eq.
    apply findOne_Some in Hfind as [Hi _].
    rewrite (list_insert_id _ _ _ Hi). now destruct w.
  - reflexivity.
  - intros p. unfold flip. destruct p. simpl. now rewrite negb_involutive.
Qed.

(** ** Starting, continued *)

(** X8.  The start route never answers 200.  It answers 500 "Server
    error" exactly when the lobby exists, the requester is its host, it has
    at least two players and all of them are ready, whether a game is
    already running or not; and that is exactly when it writes: the lobby
    is then saved started.  Any other request is answered 404, 403 or 400
    and leaves the world as it was. *)
Theorem start_game_iff w lid userId deck rand :
  (snd (start_game Wiring.io w lid userId deck rand) = server_error <->
   exists i lobby, can_start w lid userId i lobby) /\
  (forall i lobby, can_start w lid userId i lobby ->
     fst (start_game Wiring.io w lid userId deck rand) =
       set_lobbies (save i (started_lobby lobby deck rand) (lobbies w)) w) /\
  ((forall i lobby, ~ can_start w lid userId i lobby) ->
     fst (start_game Wiring.io w lid userId deck rand) = w) /\
  (forall r, snd (start_game Wiring.io w lid userId deck rand) = Returned r ->
             status r = 500 \/ status r = 404 \/ status r = 403 \/ status r = 400).
Proof.
  assert (Hcases : (exists i lobby, can_start w lid userId i lobby) \/
                   (forall i lobby, ~ can_start w lid userId i lobby)).
  { unfold can_start.
    destruct (findOne (has_lobbyId lid) (lobbies w)) as [[i lobby]|] eqn:Hfind;
      [|right; intros i lobby (Hf & _); discriminate].
    destruct (String.eqb (hostId lobby) userId) eqn:Hh;
      [apply String.eqb_eq in Hh
      |apply String.eqb_neq in Hh; right; intros i' l' ([= <- <-] & Hh' & _);
       contradiction].
    destruct (Z_lt_le_dec (JS.len (players lobby)) 2) as [Hn | Hn];
      [right; intros i' l' ([= <- <-] & _ & Hn' & _); lia|].
    destruct (forallb p_isReady (players lobby)) eqn:Hr;
      [left; exists i, lobby; auto
      |right; intros i' l' ([= <- <-] & _ & _ & Hr'); congruence]. }
  destruct Hcases as [(i & lobby & Hcan) | Hno].
  - pose proof (start_game_starts Wiring.io w lid userId deck rand i lobby Hcan) as E.
    rewrite emit_then_undefined in E. rewrite E. cbn [fst snd].
    split; [split; eauto|]. split.
    + intros i' lobby' (Hf' & _). destruct Hcan as (Hf & _).
      rewrite Hf in Hf'. now injection Hf' as <- <-.
    + split; [intros Hno; destruct (Hno i lobby Hcan)|].
      intros r [= <-]. now left.
  - destruct (start_game_refused Wiring.io w lid userId deck rand Hno)
      as (Hw & code & m & Hout & Hcode).
    rewrite Hw, Hout. split; [split|split; [|split]].
    + intros [=].
    + intros (i & lobby & Hcan). destruct (Hno i lobby Hcan).
    + intros i lobby Hcan. destruct (Hno i lobby Hcan).
    + reflexivity.
    + intros r [= <-]. simpl. tauto.
Qed.

Lemma question_bank_length type : length (question_bank type) = 5%nat.
Proof.
  unfold question_bank.
  destruct (JS.includes type "qna"); [reflexivity|].
  now destruct (JS.includes type "fill-in-blanks").
Qed.

(** X9.  A game the start route has started is stuck.  The lobby saved has
    a deck that is a permutation of the five questions of the bank chosen
    by the lobby type, and the first player of the roster is the player in
    turn, with a current question, so that player's answer passes every
    check of the answer route; and every such answer is answered 500
    "Server error" and changes nothing. *)
Theorem started_game_is_stuck w lid userId deck rand i lobby :
  can_start w lid userId i lobby ->
  let w' := fst (start_game Wiring.io w lid userId deck rand) in
  exists lobby' p question,
    findOne (has_lobbyId lid) (lobbies w') = Some (i, lobby') /\
    Permutation (questions lobby') (question_bank (l_type lobby')) /\
    length (questions lobby') = 5%nat /\
    players lobby' !! 0%nat = Some p /\
    in_turn w' lid (p_id p) i lobby' p question /\
    forall ans rand',
      submit_answer Wiring.io w' lid (p_id p) ans rand' = (w', server_error).
Proof.
  intros Hcan w'. unfold w'.
  rewrite (start_game_starts Wiring.io w lid userId deck rand i lobby Hcan).
  cbn [fst]. destruct Hcan as (Hfind & _ & Hn & _).
  pose proof (shuffle_Permutation deck 0 (question_bank (l_type lobby))) as Hperm.
  assert (Hlen : length (shuffle deck 0 (question_bank (l_type lobby))) = 5%nat)
    by (rewrite (Permutation_length Hperm); apply question_bank_length).
  destruct (players lobby) as [|p0 ps] eqn:Hps;
    [unfold JS.len in Hn; simpl in Hn; lia|].
  destruct (shuffle deck 0 (question_bank (l_type lobby))) as [|q0 qs] eqn:Hq;
    [discriminate|].
  set (lobby' := started_lobby lobby deck rand).
  set (p := reset_player lobby rand 0 p0).
  assert (Hplayers : players lobby' = p :: imap (reset_player lobby rand ∘ S) ps)
    by (unfold lobby', started_lobby; cbn [players]; now rewrite Hps).
  assert (Hqs : questions lobby' = q0 :: qs) by exact Hq.
  assert (Hfind' : findOne (has_lobbyId lid)
                     (lobbies (set_lobbies (save i lobby' (lobbies w)) w)) =
                   Some (i, lobby'))
    by (apply findOne_save with (l := lobby); [exact Hfind | reflexivity]).
  assert (Hturn : in_turn (set_lobbies (save i lobby' (lobbies w)) w) lid
                    (p_id p) i lobby' p q0).
  { split; [exact Hfind'|]. split; [reflexivity|]. split.
    { rewrite Hplayers. cbn [List.find]. unfold has_id.
      now rewrite String.eqb_refl. }
    split.
    - exists p. split; [|reflexivity].
      change (currentPlayerIndex lobby') with 0. now rewrite Hplayers.
    - change (currentQuestionIndex lobby') with 0. now rewrite Hqs. }
  exists lobby', p, q0.
  split; [exact Hfind'|].
  split; [rewrite Hqs; exact Hperm|].
  split; [rewrite Hqs; exact Hlen|].
  split; [now rewrite Hplayers|]. split; [exact Hturn|].
  intros ans rand'. exact (accepted_answer_throws _ _ _ _ _ _ _ _ _ Hturn).
Qed.

(** ** Answers, continued *)

(** The three ways the route can end once the checks are passed and the
    emits succeed. *)
Lemma resolve_turn_cases w i lobby uid cur question ans rand :
  let correct := isCorrect ans question in
  let lobby2 := after_answer uid correct cur lobby in
  let w1 := set_users (update_user uid (update_stats (isRanked lobby) correct) (users w)) w in
  (JS.len (humans (players lobby2)) <= 1 /\
   resolve_turn Bound w i lobby uid cur question ans rand =
     ({| users := award_winner (set_gameStarted false lobby2) (users w1);
         lobbies := save i (set_gameStarted false lobby2) (lobbies w) |},
      reply 200 (MsgLobby "Game over" (set_gameStarted false lobby2)))) \/
  (1 < JS.len (humans (players lobby2)) /\
   resolve_turn Bound w i lobby uid cur question ans rand = (w1, Hang)) \/
  (1 < JS.len (humans (players lobby2)) /\
   exists j,
     skip_eliminated (length (players lobby2)) (players lobby2)
       (next_index (players lobby2) (currentPlayerIndex lobby2)) = Some j /\
     let lobby5 :=
       count_cycle (resolve_player correct cur) rand
         (next_question (set_currentPlayerIndex j lobby2)) in
     resolve_turn Bound w i lobby uid cur question ans rand =
       (set_lobbies (save i lobby5 (lobbies w)) w1,
        reply 200 (MsgLobby "Answer processed" lobby5))).
Proof.
  intros correct lobby2 w1. unfold resolve_turn.
  fold correct. fold lobby2. fold w1.
  destruct (JS.len (humans (players lobby2)) <=? 1) eqn:Hh.
  - apply Z.leb_le in Hh. left. auto.
  - apply Z.leb_gt in Hh. right.
    destruct (skip_eliminated _ _ _) as [j|]; [right | left]; eauto.
Qed.

(** X10. The answer route checks before it writes: whenever it answers
    with a status other than 200 the world is as it was, and when it does
    not answer at all no lobby has changed. *)
Theorem submit_answer_fail_fast io w lid userId ans rand :
  (forall r, snd (submit_answer io w lid userId ans rand) = Returned r ->
             status r <> 200 ->
             fst (submit_answer io w lid userId ans rand) = w) /\
  (snd (submit_answer io w lid userId ans rand) = Hang ->
   lobbies (fst (submit_answer io w lid userId ans rand)) = lobbies w).
Proof.
  unfold submit_answer.
  destruct (findOne _ _) as [[i lobby]|]; [|split; [reflexivity | discriminate]].
  destruct (negb _); [split; [reflexivity | discriminate]|].
  destruct (List.find _ _) as [cur|]; [|split; [reflexivity | discriminate]].
  destruct (JS.index (players lobby) _); [|split; [reflexivity | discriminate]].
  destruct (negb _); [split; [reflexivity | discriminate]|].
  destruct (JS.index (questions lobby) _) as [question|];
    [|split; [reflexivity | discriminate]].
  destruct io; [|split; [reflexivity | discriminate]].
  destruct (resolve_turn_cases w i lobby userId cur question ans rand)
    as [[_ E] | [[_ E] | (_ & j & _ & E)]]; rewrite E; simpl; split;
    try discriminate; try reflexivity;
    intros r [= <-] Hs; now destruct Hs.
Qed.

Lemma after_answer_ids uid correct cur lobby p :
  In p (players (after_answer uid correct cur lobby)) ->
  exists p0, In p0 (players lobby) /\ p_id p = p_id p0.
Proof.
  intros H. apply after_answer_In in H as [H | (p0 & H & ->)]; eauto.
Qed.

(** X11. An answer touches one lobby and the users seated in it: the
    collection keeps its length, every lobby but the one addressed is as it
    was, and so is every user other than the submitter who has no seat in
    that lobby. *)
Theorem submit_answer_frame io w lid userId ans rand :
  let w' := fst (submit_answer io w lid userId ans rand) in
  length (lobbies w') = length (lobbies w) /\
  (findOne (has_lobbyId lid) (lobbies w) = None -> w' = w) /\
  (forall i lobby,
     findOne (has_lobbyId lid) (lobbies w) = Some (i, lobby) ->
     (forall j, j <> i -> lobbies w' !! j = lobbies w !! j) /\
     (forall k, k <> userId ->
                existsb (has_id k) (players lobby) = false ->
                users w' !! k = users w !! k)).
Proof.
  intros w'. unfold w', submit_answer.
  destruct (findOne _ _) as [[i lobby]|];
    [|split; [reflexivity | split; [reflexivity | discriminate]]].
  assert (Hdone : forall x : World * Outcome, fst x = w ->
    length (lobbies (fst x)) = length (lobbies w) /\
    (Some (i, lobby) = None -> fst x = w) /\
    (forall i0 lobby0, Some (i, lobby) = Some (i0, lobby0) ->
       (forall j, j <> i0 -> lobbies (fst x) !! j = lobbies w !! j) /\
       (forall k, k <> userId -> existsb (has_id k) (players lobby0) = false ->
                  users (fst x) !! k = users w !! k))).
  { intros x ->. split; [reflexivity|]. split; [discriminate|]. auto. }
  destruct (negb _); [now apply Hdone|].
  destruct (List.find _ _) as [cur|]; [|now apply Hdone].
  destruct (JS.index (players lobby) _); [|now apply Hdone].
  destruct (negb _); [now apply Hdone|].
  destruct (JS.index (questions lobby) _) as [question|]; [|now apply Hdone].
  destruct io; [|now apply Hdone].
  clear Hdone.
  assert (Hstats : forall k, k <> userId ->
            update_user userId
              (update_stats (isRanked lobby) (isCorrect ans question))
              (users w) !! k = users w !! k).
  { intros k Hk. rewrite update_user_lookup.
    now destruct (decide (k = userId)). }
  destruct (resolve_turn_cases w i lobby userId cur question ans rand)
    as [[_ E] | [[_ E] | (_ & j & _ & E)]]; rewrite E; cbn [fst lobbies users
      set_lobbies set_users]; (split; [|split; [discriminate|]]);
    try (unfold save; apply length_insert); try reflexivity;
    intros i0 lobby0 [= <- <-]; split;
    try (intros j0 Hj; unfold save; now apply list_lookup_insert_ne);
    try (intros k Hk _; now apply Hstats); try reflexivity.
  intros k Hk Hseat. unfold award_winner.
  destruct (List.find _ _) as [winner|] eqn:Hw; [|now apply Hstats].
  rewrite update_user_lookup.
  destruct (decide (k = p_id winner)) as [->|Hne]; [|now apply Hstats].
  exfalso. apply find_some in Hw as [Hin _].
  cbn [players set_gameStarted] in Hin.
  apply after_answer_ids in Hin as (p0 & Hp0 & Hid).
  assert (Hex : existsb (has_id (p_id winner)) (players lobby) = true).
  { apply existsb_exists. exists p0. split; [exact Hp0|].
    unfold has_id. apply String.eqb_eq. congruence. }
  congruence.
Qed.

(** X12.  The answer route, as the server is wired, accepts no answer.
    Whatever the request, it writes nothing and answers 400, 403 or 500; it
    never answers 200 and never fails to answer.  So no answer is counted,
    no life is taken, no turn passes and no game ends. *)
Theorem submit_answer_never_accepts w lid userId ans rand :
  fst (submit_answer Wiring.io w lid userId ans rand) = w /\
  (exists code b,
     snd (submit_answer Wiring.io w lid userId ans rand) = reply code b /\
     (code = 400 \/ code = 403 \/ code = 500)) /\
  snd (submit_answer Wiring.io w lid userId ans rand) <> Hang /\
  (forall r, snd (submit_answer Wiring.io w lid userId ans rand) = Returned r ->
             status r <> 200).
Proof.
  destruct (submit_answer_unwired w lid userId ans rand)
    as (Hw & code & b & Hout & Hcode).
  rewrite Hout. split; [exact Hw|]. split; [eauto|]. split; [discriminate|].
  intros r [= <-]. simpl. lia.
Qed.

Lemma count_cycle_questions turn rand lobby :
  questions (count_cycle turn rand lobby) = questions lobby /\
  currentQuestionIndex (count_cycle turn rand lobby) = currentQuestionIndex lobby.
Proof.
  unfold count_cycle.
  destruct (_ || _)%bool; [|auto]. simpl.
  now destruct (_ && _)%bool.
Qed.

Lemma after_answer_questions uid correct cur lobby :
  questions (after_answer uid correct cur lobby) = questions lobby /\
  lobbyId (after_answer uid correct cur lobby) = lobbyId lobby /\
  l_type (after_answer uid correct cur lobby) = l_type lobby /\
  isFrenzyMode (after_answer uid correct cur lobby) = isFrenzyMode lobby.
Proof. unfold after_answer, eliminate. destruct (_ <=? 0); simpl; auto. Qed.

(** ** The shop and the account routes *)

(** X19. An item is sold once: on the world left by a 200 of the buy route,
    every further purchase of the same item id by that user, at any price,
    is answered 400 "You already own this item." and changes nothing. *)
Theorem buy_item_twice_rejected w userId req w' m t inv title :
  buy_item w userId req = (w', reply 200 (Purchase m t inv title)) ->
  forall req2, itemId req2 = itemId req ->
    buy_item w' userId req2 = (w', reply 400 (Msg "You already own this item.")).
Proof.
  unfold buy_item. intros H req2 Hsame.
  destruct (users w !! userId) as [user|]; [|discriminate].
  destruct (existsb _ _); [discriminate|].
  destruct (_ <? _); [discriminate|].
  injection H as <- _ _ _ _. simpl. rewrite lookup_insert_eq.
  replace (existsb (String.eqb (itemId req2)) (inventory (purchase req user)))
    with true; [reflexivity|].
  symmetry. apply existsb_eqb_In. simpl. rewrite Hsame.
  apply list_elem_of_In, in_or_app. right. now left.
Qed.

(** X20. The code "BlueLock" has no limit of use: for an existing user,
    [n] redemptions in a row raise the tokens by [50000 * n], touching
    nothing else of the user and no lobby; any other code is answered 400
    and changes nothing. *)
Theorem redeem_code_unlimited w userId :
  (forall code, code <> "BlueLock" ->
     fst (redeem_code w userId code) = w /\
     fst (snd (redeem_code w userId code)) <> 200) /\
  (forall user n,
     users w !! userId = Some user ->
     let wn := Nat.iter n (fun w0 => fst (redeem_code w0 userId "BlueLock")) w in
     users wn !! userId = Some (set_tokens (tokens user + 50000 * Z.of_nat n) user) /\
     lobbies wn = lobbies w /\
     (forall other, other <> userId -> users wn !! other = users w !! other)).
Proof.
  split.
  - intros code Hne. unfold redeem_code.
    destruct (users w !! userId); [|split; [reflexivity | discriminate]].
    apply String.eqb_neq in Hne. rewrite Hne. split; [reflexivity | discriminate].
  - intros user n Hu. induction n as [|n IH].
    + simpl. rewrite Z.mul_0_r, Z.add_0_r, set_tokens_same. auto.
    + cbn zeta in *. rewrite Nat.iter_succ.
      set (wn := Nat.iter n _ w) in *. destruct IH as (Hn & Hl & Ho).
      unfold redeem_code. rewrite Hn. simpl.
      rewrite lookup_insert_eq. split; [|split].
      * f_equal. unfold set_tokens. simpl. f_equal. lia.
      * exact Hl.
      * intros other Hne. rewrite lookup_insert_ne by congruence. now apply Ho.
Qed.

(** X21.  The update-penalty route lets a user set the own record.  For an
    expiry that is absent, 0, or a time value [new Date] accepts: after the
    request the warning counter is the number sent, and the user counts as
    penalised at a time [now] exactly when a non-zero expiry was sent and
    [now] is before it; so after a request without expiry the create route
    never answers that user 403.  For any other expiry the save fails: the
    answer is 500 and nothing is stored. *)
Theorem update_penalty_overrides w userId count penalty user :
  users w !! userId = Some user ->
  let w' := fst (update_penalty w userId count penalty) in
  (match penalty with Some t => valid_time t = true | None => True end ->
   (exists user',
      users w' !! userId = Some user' /\
      fst (snd (update_penalty w userId count penalty)) = 200 /\
      warningCount user' = count /\
      forall now,
        penalized now user' =
        match penalty with
        | Some t => (negb (t =? 0) && (now <? t))%bool
        | None => false
        end) /\
   (penalty = None ->
    forall io now hu req sfx rand code b,
      snd (create_lobby io w' now userId hu req sfx rand) = reply code b ->
      code <> 403)) /\
  (forall t, penalty = Some t -> valid_time t = false ->
     update_penalty w userId count penalty = (w, (500, AccountText "Server error"))) /\
  lobbies w' = lobbies w.
Proof.
  intros Hu w'. unfold w', update_penalty. rewrite Hu. cbn zeta.
  split; [|split].
  - intros Hvalid. split.
    + destruct penalty as [t|].
      * destruct (t =? 0) eqn:H0.
        -- eexists. cbn [fst snd users set_users]. rewrite lookup_insert_eq.
           split; [reflexivity|]. split; [reflexivity|]. split; [reflexivity|].
           reflexivity.
        -- rewrite Hvalid. eexists. cbn [fst snd users set_users].
           rewrite lookup_insert_eq.
           split; [reflexivity|]. split; [reflexivity|]. split; [reflexivity|].
           reflexivity.
      * eexists. cbn [fst snd users set_users]. rewrite lookup_insert_eq.
        split; [reflexivity|]. split; [reflexivity|]. split; [reflexivity|].
        reflexivity.
    + intros -> io now hu req sfx rand code b. unfold create_lobby.
      cbn [fst users set_users]. rewrite lookup_insert_eq.
      unfold penalized at 1. cbn [penaltyEndTime set_warning].
      destruct (insert_lobby _ _); [destruct io|]; intros [= <- _]; discriminate.
  - intros t -> Hbad.
    assert (Ht : (t =? 0) = false).
    { destruct (t =? 0) eqn:H0; [|reflexivity].
      apply Z.eqb_eq in H0. subst t. discriminate. }
    now rewrite Ht, Hbad.
  - destruct penalty as [t|]; [|reflexivity].
    destruct (t =? 0); [reflexivity|]. now destruct (valid_time t).
Qed.

(** ** The inactivity monitor, continued *)

(** X22.  The inactivity monitor never penalises anybody.  For a user with
    a warning counter from 0 to 2, after any number of firings of the
    user's timer, at any times and for any sockets, the counter is the
    counter before plus the number of firings, but 2 at most; the penalty
    expiry of the user is what it was, so the user is penalised at a time
    exactly when the user was before; and no other user and no lobby has
    changed. *)
Theorem timer_counter_saturates w userId user firings :
  users w !! userId = Some user ->
  0 <= warningCount user <= 2 ->
  let w' := fold_left (idle_once userId) firings w in
  users w' !! userId =
    Some (set_warning (Z.min 2 (warningCount user + Z.of_nat (length firings)))
                      (penaltyEndTime user) user) /\
  (forall now user', users w' !! userId = Some user' ->
                     penalized now user' = penalized now user) /\
  (forall other, other <> userId -> users w' !! other = users w !! other) /\
  lobbies w' = lobbies w.
Proof.
  intros Hu Hc w'.
  assert (Hmain :
    users w' !! userId =
      Some (set_warning (Z.min 2 (warningCount user + Z.of_nat (length firings)))
                        (penaltyEndTime user) user) /\
    (forall other, other <> userId -> users w' !! other = users w !! other) /\
    lobbies w' = lobbies w).
  { unfold w'. clear w'. revert w user Hu Hc.
    induction firings as [|[t s] rest IH]; intros w user Hu Hc.
    - cbn [fold_left length]. rewrite Z.add_0_r, Z.min_r by lia.
      replace (set_warning (warningCount user) (penaltyEndTime user) user) with user
        by now destruct user.
      auto.
    - cbn [fold_left length].
      change (idle_once userId w (t, s))
        with (fst (inactivity_timeout Wiring.LobbyModel w t userId s)).
      destruct (Z_lt_le_dec (warningCount user + 1) MAX_WARNINGS) as [Hlt | Hge].
      + rewrite (timeout_warns _ w t userId s user Hu Hlt). cbn [fst].
        set (user1 := set_warning (warningCount user + 1) (penaltyEndTime user) user).
        set (w1 := set_users (<[userId := user1]> (users w)) w).
        assert (Hu1 : users w1 !! userId = Some user1) by apply lookup_insert_eq.
        destruct (IH w1 user1 Hu1) as (H1 & H2 & H3).
        { unfold user1, MAX_WARNINGS in *. simpl. lia. }
        split; [|split].
        * rewrite H1. unfold user1. cbn [warningCount penaltyEndTime set_warning].
          f_equal. unfold set_warning. cbn. f_equal. lia.
        * intros other Hne. rewrite (H2 other Hne). unfold w1. simpl.
          now rewrite lookup_insert_ne.
        * rewrite H3. reflexivity.
      + rewrite (timeout_throws w t userId s user Hu Hge). cbn [fst].
        destruct (IH w user Hu Hc) as (H1 & H2 & H3).
        split; [|split; assumption].
        rewrite H1. unfold MAX_WARNINGS in Hge.
        f_equal. f_equal. lia. }
  destruct Hmain as (H1 & H2 & H3).
  split; [exact H1|]. split; [|split; assumption].
  intros now user' Hu'. rewrite H1 in Hu'. injection Hu' as <-. reflexivity.
Qed.

(** ** What a step does to the lobby collection *)

Lemma same_settings_refl l : same_settings l l.
Proof. unfold same_settings. auto 10. Qed.

Lemma same_settings_trans l1 l2 l3 :
  same_settings l1 l2 -> same_settings l2 l3 -> same_settings l1 l3.
Proof. unfold same_settings. intuition congruence. Qed.

Lemma after_answer_same_settings uid correct cur lobby :
  same_settings lobby (after_answer uid correct cur lobby).
Proof.
  unfold after_answer, eliminate, same_settings.
  destruct (_ <=? 0); simpl; auto 10.
Qed.

Lemma count_cycle_same_settings turn rand lobby :
  same_settings lobby (count_cycle turn rand lobby) /\
  chatMessages (count_cycle turn rand lobby) = chatMessages lobby.
Proof.
  unfold count_cycle, same_settings.
  destruct (_ || _)%bool; [|auto 10]. simpl.
  destruct (_ && _)%bool; simpl; auto 10.
Qed.

Lemma after_answer_chat uid correct cur lobby :
  chatMessages (after_answer uid correct cur lobby) = chatMessages lobby.
Proof. unfold after_answer, eliminate. now destruct (_ <=? 0). Qed.

(** A saved lobby that keeps settings, chat, deck, question index and the
    started flag. *)
Lemma evolves_roster l l' :
  same_settings l l' ->
  chatMessages l' = chatMessages l ->
  gameStarted l' = gameStarted l ->
  questions l' = questions l ->
  currentQuestionIndex l' = currentQuestionIndex l ->
  evolves l l'.
Proof.
  intros Hs Hc Hg Hq Hi. split; [exact Hs|]. split.
  - exists []. now rewrite app_nil_r.
  - unfold deck_inv. now rewrite Hg, Hq, Hi.
Qed.

Lemma evolves_not_started l l' :
  same_settings l l' ->
  chatMessages l' = chatMessages l ->
  gameStarted l' = false ->
  evolves l l'.
Proof.
  intros Hs Hc Hg. split; [exact Hs|]. split.
  - exists []. now rewrite app_nil_r.
  - intros _ Hst. congruence.
Qed.

Lemma effect_save i l l' ls :
  ls !! i = Some l -> evolves l l' -> lobbies_effect ls (save i l' ls).
Proof. intros Hi He. right; right; right. exists i, l, l'. auto. Qed.

Lemma effect_none ls : lobbies_effect ls ls.
Proof. now left. Qed.

Lemma effect_delete i ls : lobbies_effect ls (delete i ls).
Proof. right; right; left. now exists i. Qed.

Lemma resolve_turn_effect w i lobby uid cur question ans rand :
  lobbies w !! i = Some lobby ->
  gameStarted lobby = true ->
  0 <= currentQuestionIndex lobby ->
  lobbies_effect (lobbies w)
    (lobbies (fst (resolve_turn Bound w i lobby uid cur question ans rand))).
Proof.
  intros Hi Hst Hq.
  pose proof (after_answer_same_settings uid (isCorrect ans question) cur lobby) as Hs.
  pose proof (after_answer_chat uid (isCorrect ans question) cur lobby) as Hc.
  destruct (after_answer_settings uid (isCorrect ans question) cur lobby)
    as (_ & _ & Hg & _ & Hcq & _).
  destruct (after_answer_questions uid (isCorrect ans question) cur lobby)
    as (Hqs & _).
  destruct (resolve_turn_cases w i lobby uid cur question ans rand)
    as [[_ E] | [[_ E] | (_ & j & _ & E)]]; rewrite E; cbn [fst lobbies set_lobbies set_users].
  - apply (effect_save i lobby); [exact Hi|].
    apply evolves_not_started; [exact Hs | exact Hc | reflexivity].
  - apply effect_none.
  - apply (effect_save i lobby); [exact Hi|].
    match goal with
    | |- evolves _ (count_cycle ?t ?n ?l) =>
        destruct (count_cycle_same_settings t n l) as [Hs5 Hc5];
        destruct (count_cycle_questions t n l) as [Hq5 Hi5];
        pose proof (count_cycle_started t n l) as Hg5
    end.
    split; [|split].
    + eapply same_settings_trans; [exact Hs|].
      eapply same_settings_trans; [|exact Hs5].
      unfold same_settings. simpl. auto 10.
    + exists []. rewrite app_nil_r, Hc5. simpl. exact Hc.
    + intros Hd _. destruct (Hd Hst) as [Hlen _].
      rewrite Hq5, Hi5.
      cbn [questions currentQuestionIndex next_question
           set_currentQuestionIndex set_currentPlayerIndex].
      rewrite Hqs, Hcq. split; [exact Hlen|].
      unfold JS.len. rewrite Hlen.
      destruct (_ <=? _) eqn:Hw; [lia|]. apply Z.leb_gt in Hw. lia.
Qed.

(** Settings that are equal field by field. *)
Ltac kept_settings := unfold same_settings; simpl; auto 10.

(** One step does one of four things to the lobby collection. *)
Lemma step_effect w w' : step w w' -> lobbies_effect (lobbies w) (lobbies w').
Proof.
  destruct 1.
  - (* create *)
    unfold create_lobby.
    destruct (users w !! h) as [user|]; [|apply effect_none].
    destruct (penalized now user); [apply effect_none|].
    unfold insert_lobby. destruct (valid_new_lobby _); [|apply effect_none].
    simpl. destruct (existsb _ _) eqn:Hfresh; [apply effect_none|]. simpl.
    right; left. exists (newLobby h hu user req sfx rand).
    split; [reflexivity|]. split; [exact Hfresh | reflexivity].
  - (* join *)
    unfold join_lobby.
    destruct (users w !! u) as [user|]; [|apply effect_none].
    destruct (penalized now user); [apply effect_none|].
    destruct (findOne _ _) as [[i lobby]|] eqn:Hfind; [|apply effect_none].
    apply findOne_Some in Hfind as [Hi _].
    destruct (_ || _)%bool; [apply effect_none|].
    destruct (existsb _ _); [apply effect_none|].
    destruct (negb _); [apply effect_none|]. simpl.
    apply (effect_save i lobby); [exact Hi|].
    apply evolves_roster; try reflexivity. kept_settings.
  - (* leave *)
    unfold leave_lobby.
    destruct (findOne _ _) as [[i lobby]|] eqn:Hfind; [|apply effect_none].
    rewrite (deleteOne_delete _ _ _ _ Hfind).
    apply findOne_Some in Hfind as [Hi _]. cbn zeta.
    destruct (_ =? _)%nat; [apply effect_none|].
    destruct (_ =? _)%nat; [apply effect_delete|].
    destruct (String.eqb _ _).
    + destruct (List.find _ _); simpl; [|apply effect_delete].
      apply (effect_save i lobby); [exact Hi|].
      apply evolves_roster; try reflexivity. kept_settings.
    + simpl. apply (effect_save i lobby); [exact Hi|].
      apply evolves_roster; try reflexivity. kept_settings.
  - (* ready *)
    unfold toggle_ready.
    destruct (findOne _ _) as [[i lobby]|] eqn:Hfind; [|apply effect_none].
    apply findOne_Some in Hfind as [Hi _].
    destruct (List.find _ _); [|apply effect_none].
    destruct (isRanked lobby); [apply effect_none|]. simpl.
    apply (effect_save i lobby); [exact Hi|].
    apply evolves_roster; try reflexivity. kept_settings.
  - (* start *)
    unfold start_game.
    destruct (findOne _ _) as [[i lobby]|] eqn:Hfind; [|apply effect_none].
    apply findOne_Some in Hfind as [Hi _].
    destruct (negb _); [apply effect_none|].
    destruct (_ <? 2); [apply effect_none|].
    destruct (negb _); [apply effect_none|]. simpl.
    apply (effect_save i lobby); [exact Hi|].
    split; [unfold same_settings; simpl; auto 10|]. split.
    + exists []. now rewrite app_nil_r.
    + intros _ _. simpl.
      pose proof (shuffle_Permutation deck 0 (question_bank (l_type lobby))) as Hp.
      apply Permutation_length in Hp. rewrite question_bank_length in Hp.
      unfold JS.len. rewrite Hp. split; [reflexivity | lia].
  - (* answer *)
    unfold submit_answer.
    destruct (findOne _ _) as [[i lobby]|] eqn:Hfind; [|apply effect_none].
    apply findOne_Some in Hfind as [Hi _].
    destruct (negb _) eqn:Hst; [apply effect_none|]. apply negb_false_iff in Hst.
    destruct (List.find _ _) as [cur|]; [|apply effect_none].
    destruct (JS.index (players lobby) _); [|apply effect_none].
    destruct (negb _); [apply effect_none|].
    destruct (JS.index (questions lobby) _) as [question|] eqn:Hq;
      [|apply effect_none].
    apply index_range in Hq.
    destruct io; [|apply effect_none].
    apply resolve_turn_effect; [exact Hi | exact Hst | lia].
  - (* chat *)
    unfold send_chat.
    destruct (findOne _ _) as [[i lobby]|] eqn:Hfind; [|apply effect_none].
    apply findOne_Some in Hfind as [Hi _]. cbn zeta.
    destruct (negb _); [apply effect_none|]. simpl.
    apply (effect_save i lobby); [exact Hi|].
    split; [kept_settings|]. split; [eexists; reflexivity | auto].
  - (* buy *)
    unfold buy_item.
    destruct (users w !! u) as [user|]; [|apply effect_none].
    destruct (existsb _ _); [apply effect_none|].
    destruct (_ <? _); apply effect_none.
  - (* timeout *)
    unfold inactivity_timeout.
    destruct (users w !! u) as [user|]; [|apply effect_none]. cbn zeta.
    destruct (_ <=? _); [|apply effect_none].
    destruct model; [|apply effect_none].
    destruct (findOne _ _) as [[i lobby]|] eqn:Hfind; [|apply effect_none].
    apply findOne_Some in Hfind as [Hi _].
    destruct (_ =? _)%nat; simpl; [apply effect_delete|].
    apply (effect_save i lobby); [exact Hi|].
    apply evolves_roster; try reflexivity. kept_settings.
  - apply effect_none.
Qed.

(** X23. No route and no timer firing ever rewrites a lobby's settings or
    its chat history.  After one step every lobby in the collection either
    was there before, with the same id, name, type, capacity, ranked,
    custom and frenzy flags, initial lives and question timer and with a
    chat log that the present one extends, or is a lobby that is not
    started and whose id no lobby had before. *)
Theorem step_keeps_settings w w' l' :
  step w w' ->
  In l' (lobbies w') ->
  (exists l,
     In l (lobbies w) /\ same_settings l l' /\
     exists more, chatMessages l' = chatMessages l ++ more) \/
  (gameStarted l' = false /\
   forall l, In l (lobbies w) -> lobbyId l <> lobbyId l').
Proof.
  intros Hstep Hin.
  assert (Hold : forall l, In l (lobbies w) ->
            exists l0, In l0 (lobbies w) /\ same_settings l0 l /\
                       exists more, chatMessages l = chatMessages l0 ++ more).
  { intros l Hl. exists l. split; [exact Hl|]. split; [apply same_settings_refl|].
    exists []. now rewrite app_nil_r. }
  destruct (step_effect w w' Hstep)
    as [E | [(l & Hst & Hfresh & E) | [(i & E) | (i & l & l1 & Hi & He & E)]]];
    rewrite E in Hin.
  - left. now apply Hold.
  - apply in_app_or in Hin as [Hin | [<- | []]]; [left; now apply Hold|].
    right. split; [exact Hst|]. intros l0 Hl0 Hid.
    assert (Hex : existsb (has_lobbyId (lobbyId l)) (lobbies w) = true).
    { apply existsb_exists. exists l0. split; [exact Hl0|].
      unfold has_lobbyId. now apply String.eqb_eq. }
    congruence.
  - left. apply Hold. apply list_elem_of_In.
    apply list_elem_of_In in Hin.
    now apply list_elem_of_delete_inv in Hin.
  - apply list_elem_of_In, list_elem_of_lookup in Hin as [j Hj].
    destruct (decide (j = i)) as [-> | Hne].
    + rewrite list_lookup_insert_eq in Hj by (eapply lookup_lt_Some; eauto).
      injection Hj as <-. left. exists l. split.
      * apply list_elem_of_In. eapply list_elem_of_lookup_2; eauto.
      * destruct He as (Hs & Hc & _). auto.
    + rewrite list_lookup_insert_ne in Hj by congruence.
      left. apply Hold. apply list_elem_of_In.
      eapply list_elem_of_lookup_2; eauto.
Qed.

Lemma effect_unique_ids old new :
  lobbies_effect old new ->
  NoDup (map lobbyId old) -> NoDup (map lobbyId new).
Proof.
  intros [-> | [(l & _ & Hfresh & ->) | [(i & ->) | (i & l & l' & Hi & He & ->)]]] Hnd.
  - exact Hnd.
  - rewrite map_app. simpl. apply NoDup_app. split; [exact Hnd|].
    split; [|apply NoDup_singleton].
    intros x Hx Hx'. apply list_elem_of_singleton in Hx'. subst x.
    apply list_elem_of_In, in_map_iff in Hx as (l0 & Hid & Hin).
    assert (Hex : existsb (has_lobbyId (lobbyId l)) old = true).
    { apply existsb_exists. exists l0. split; [exact Hin|].
      unfold has_lobbyId. now apply String.eqb_eq. }
    congruence.
  - eapply sublist_NoDup; [exact Hnd|].
    change (map lobbyId (delete i old)) with (lobbyId <$> delete i old).
    rewrite list_fmap_delete. apply sublist_delete.
  - change (map lobbyId (<[i:=l']> old)) with (lobbyId <$> <[i:=l']> old).
    rewrite list_fmap_insert.
    destruct He as ((Hid & _) & _). rewrite Hid.
    rewrite list_insert_id; [exact Hnd|].
    rewrite list_lookup_fmap, Hi. reflexivity.
Qed.

(** X24. Lobby ids are unique in every world the server can reach, so a
    lobby id names at most one lobby. *)
Theorem reachable_unique_ids w :
  reachable w ->
  NoDup (map lobbyId (lobbies w)) /\
  forall i j li lj,
    lobbies w !! i = Some li -> lobbies w !! j = Some lj ->
    lobbyId li = lobbyId lj -> i = j.
Proof.
  intros [us Hrun].
  assert (Hnd : NoDup (map lobbyId (lobbies w))).
  { revert w Hrun. apply rtc_ind_r; [constructor|].
    intros w1 w2 _ Hstep IH. eapply effect_unique_ids; [|exact IH].
    now apply step_effect. }
  split; [exact Hnd|].
  intros i j li lj Hi Hj Hid.
  eapply NoDup_lookup; [exact Hnd | |].
  - change (map lobbyId (lobbies w)) with (lobbyId <$> lobbies w).
    rewrite list_lookup_fmap, Hi. reflexivity.
  - change (map lobbyId (lobbies w)) with (lobbyId <$> lobbies w).
    rewrite list_lookup_fmap, Hj. simpl. now rewrite Hid.
Qed.

Lemma effect_deck old new :
  lobbies_effect old new -> Forall deck_inv old -> Forall deck_inv new.
Proof.
  intros [-> | [(l & Hst & _ & ->) | [(i & ->) | (i & l & l' & Hi & He & ->)]]] Hall.
  - exact Hall.
  - apply Forall_app. split; [exact Hall|].
    constructor; [|constructor]. intros Hs. congruence.
  - now apply Forall_delete.
  - apply Forall_insert; [exact Hall|].
    destruct He as (_ & _ & Hd). apply Hd.
    exact (Forall_lookup_1 _ _ _ _ Hall Hi).
Qed.

(** X25. In every world the server can reach, a started lobby has its
    deck of five questions and a question index inside it: the answer
    route never runs out of questions. *)
Theorem reachable_deck w l :
  reachable w ->
  In l (lobbies w) ->
  gameStarted l = true ->
  length (questions l) = 5%nat /\
  exists question,
    JS.index (questions l) (currentQuestionIndex l) = Some question.
Proof.
  intros [us Hrun] Hin Hst.
  assert (Hall : Forall deck_inv (lobbies w)).
  { clear Hin Hst. revert w Hrun.
    apply (rtc_ind_r (fun w => Forall deck_inv (lobbies w))); [constructor|].
    intros w1 w2 _ Hstep IH. eapply effect_deck; [|exact IH].
    now apply step_effect. }
  rewrite List.Forall_forall in Hall. destruct (Hall l Hin Hst) as [Hlen Hr].
  split; [exact Hlen|]. now apply index_in_range.
Qed.

(** ** A turn left behind *)

Lemma without_other uid leaver ps :
  uid <> leaver ->
  existsb (has_id uid) (without leaver ps) = existsb (has_id uid) ps.
Proof.
  intros Hne. induction ps as [|p r IH]; [reflexivity|].
  unfold without in *. simpl. destruct (has_id leaver p) eqn:Hl; simpl.
  - rewrite IH. unfold has_id in *. apply String.eqb_eq in Hl.
    replace (String.eqb (p_id p) uid) with false; [reflexivity|].
    symmetry. apply String.eqb_neq. congruence.
  - now rewrite IH.
Qed.

(** X26. The leave route never moves the player index.  When the turn is
    at the last seat of a game in progress and a player leaves with a human
    remaining, the index points past the shortened roster, and from then on
    every answer by a remaining player is answered 500 "Server error" and
    changes nothing. *)
Theorem leave_strands_turn w lid leaver i lobby :
  findOne (has_lobbyId lid) (lobbies w) = Some (i, lobby) ->
  gameStarted lobby = true ->
  existsb (has_id leaver) (players lobby) = true ->
  humans (without leaver (players lobby)) <> [] ->
  currentPlayerIndex lobby = JS.len (players lobby) - 1 ->
  forall io io',
  let w' := fst (leave_lobby io w lid leaver) in
  forall userId ans rand,
    userId <> leaver ->
    existsb (has_id userId) (players lobby) = true ->
    submit_answer io' w' lid userId ans rand = (w', server_error).
Proof.
  intros Hfind Hst Hmem Hhum Hcpi io io' w' userId ans rand Hne Hseat.
  destruct (humans (without leaver (players lobby))) as [|h hs] eqn:Hh;
    [contradiction|].
  pose proof (leave_lobby_keeps io w lid leaver i lobby h hs Hfind Hmem Hh) as E.
  unfold w'. rewrite E. cbn [fst].
  set (lobby' := set_hostId _ _) in *.
  unfold submit_answer. cbn [lobbies set_lobbies].
  rewrite (findOne_save lid (lobbies w) i lobby lobby' Hfind eq_refl).
  change (gameStarted lobby') with (gameStarted lobby). rewrite Hst. cbn [negb].
  change (players lobby') with (without leaver (players lobby)).
  pose proof (without_other userId leaver (players lobby) Hne) as Hsame.
  rewrite Hseat in Hsame. apply find_existsb in Hsame as [p Hp]. rewrite Hp.
  change (currentPlayerIndex lobby') with (currentPlayerIndex lobby).
  replace (JS.index (without leaver (players lobby)) (currentPlayerIndex lobby))
    with (@None Player); [reflexivity|].
  symmetry. unfold JS.index.
  pose proof (without_member_shorter _ _ Hmem) as Hshort.
  destruct (_ <? 0); [reflexivity|].
  apply lookup_ge_None. rewrite Hcpi. unfold JS.len. lia.
Qed.

(** X27. In every world the server can reach, the roster of a started
    lobby is all alive or all without lives: a player whose lives have run
    out never sits among players who still have some. *)
Theorem reachable_lives w l :
  reachable w ->
  In l (lobbies w) ->
  gameStarted l = true ->
  Forall (fun p => 0 < p_lives p) (players l) \/
  Forall (fun p => p_lives p <= 0) (players l).
Proof.
  intros Hreach Hin Hst. apply reachable_inv in Hreach.
  unfold world_inv in Hreach. rewrite List.Forall_forall in Hreach.
  exact (Hreach l Hin Hst).
Qed.

(** ** The lobby chat route *)

(** X29.  The chat route posts for anyone, seated in the lobby or not, and
    answers 500 "Server error" whether it has posted or not.  For an
    existing lobby and a non-empty sender id, sender name and text it saves
    the lobby with the message, stamped with the time of the request,
    appended to the chat log and nothing else changed, and then throws at
    its emit; for an empty text the save is rejected and nothing is
    stored. *)
Theorem send_chat_posts w now lid userId uname text i lobby :
  findOne (has_lobbyId lid) (lobbies w) = Some (i, lobby) ->
  (userId <> "" -> uname <> "" -> text <> "" ->
     let posted :=
       {| senderId := userId; senderName := uname; message := text;
          timestamp := now |} in
     let lobby' := set_chatMessages (chatMessages lobby ++ [posted]) lobby in
     send_chat Wiring.io w now lid userId uname text =
       (set_lobbies (save i lobby' (lobbies w)) w, server_error) /\
     players lobby' = players lobby /\
     gameStarted lobby' = gameStarted lobby /\
     hostId lobby' = hostId lobby) /\
  (text = "" -> send_chat Wiring.io w now lid userId uname text = (w, server_error)).
Proof.
  intros Hfind. unfold send_chat. rewrite Hfind. cbn zeta. split.
  - intros Hid Hname Htext. unfold required.
    apply String.eqb_neq in Hid, Hname, Htext.
    rewrite Hid, Hname, Htext. simpl. auto.
  - intros ->. unfold required. simpl. now rewrite !andb_false_r.
Qed.

(** ** The wiring, continued *)

(** X13.  Started as [node server.js], the server comes up with [io]
    undefined in [routes/lobby.js] and [Lobby] undefined in [server.js]:
    each file destructures the other's exports when they do not hold the
    name, [server.js] exporting [io] only after the routes are loaded and
    [routes/lobby.js] replacing its exports by the router.  These are the
    only two constants bound across the two files, and more nesting of
    [require] than the two files need changes nothing. *)
Theorem wiring_leaves_constants_undefined :
  Wiring.io = Undefined /\
  Wiring.LobbyModel = Undefined /\
  Wiring.bindings Wiring.boot =
    [(Wiring.routes_lobby_js, "io", Undefined); (Wiring.server_js, "Lobby", Undefined)] /\
  Wiring.exports_of Wiring.boot Wiring.server_js = ["io"] /\
  Wiring.exports_of Wiring.boot Wiring.routes_lobby_js = [] /\
  forall n,
    Wiring.bindings
      (Wiring.load (3 + n) Wiring.server_js
         {| Wiring.cached := []; Wiring.exports_of := fun _ => [];
            Wiring.bindings := [] |}) =
    Wiring.bindings Wiring.boot.
Proof.
  split; [reflexivity|]. split; [reflexivity|]. split; [reflexivity|].
  split; [reflexivity|]. split; [reflexivity|].
  intros n. reflexivity.
Qed.

(** * The further properties on sample data *)

Section MoreSamples.
Import Sample.

Lemma created_stored :
  exists l,
    lobbies (fst (create_lobby Wiring.io empty_world 0 "u1" "ann" ranked_req "abc"
                    no_draws)) = lobbies empty_world ++ [l] /\
    lobbyId l = arena.
Proof. eexists. split; vm_compute; reflexivity. Defined.

Lemma fresh_lobby_is_full_witness :
  snd (join_lobby Wiring.io created 5 arena "u2" "ben" no_draws) =
    reply 400 (Msg "Lobby is full or game has started").
Proof.
  destruct created_stored as (l & Hc & Hid).
  destruct (fresh_lobby_is_full Wiring.io Wiring.io _ _ _ _ _ _ _ _ Hc
              5 "u2" "ben" no_draws) as (_ & _ & H).
  rewrite Hid in H. exact (H ben eq_refl eq_refl).
Defined.

Lemma created_lobby_listing_witness :
  exists l, In l (lobbies created) /\ ~ In l (list_lobbies created "").
Proof.
  destruct created_stored as (l & Hc & _).
  exists l. split.
  - unfold created. rewrite Hc. apply in_or_app. right. now left.
  - intros Hin.
    apply (created_lobby_listing Wiring.io _ _ _ _ _ _ _ _ Hc "") in Hin as [Hr _].
    vm_compute in Hr. discriminate.
Defined.

Lemma join_adds_one_player_witness :
  exists lobby',
    join_lobby Wiring.io lounge 0 "L" "u3" "cal" no_draws =
      (set_lobbies (save 0 lobby' (lobbies lounge)) lounge, server_error) /\
    map p_id (players lobby') = ["u1"; "u2"; "u3"].
Proof.
  destruct (join_adds_one_player lounge 0 "L" "u3" "cal" no_draws 0 open_room cal)
    as (p & lobby' & E & Hl & Hid & _);
    [reflexivity | reflexivity | reflexivity | vm_compute; reflexivity | reflexivity
    | reflexivity | discriminate | discriminate |].
  exists lobby'. split; [exact E|]. rewrite Hl. simpl. now rewrite Hid.
Defined.

Lemma leave_member_outcomes_witness :
  existsb (has_id "u2") (players duel) = true /\
  leave_lobby Wiring.io (world_of duel) "L" "u2" =
    (set_lobbies
       (save 0 (set_hostId "u1" (set_players [seat "u1" "ann" human 3 0] duel))
             (lobbies (world_of duel)))
       (world_of duel),
     server_error).
Proof.
  split; [reflexivity|].
  destruct (leave_member_outcomes (world_of duel) "L" "u2" 0 duel eq_refl eq_refl)
    as [_ H].
  destruct (H (seat "u1" "ann" human 3 0) [] eq_refl) as [E _].
  exact E.
Defined.

Lemma toggle_ready_twice_witness :
  toggle_ready Wiring.io
    (fst (toggle_ready Wiring.io (world_of full_room) "L" "u1")) "L" "u1" =
    (world_of full_room, server_error).
Proof.
  destruct (toggle_ready_twice (world_of full_room) "L" "u1" 0 full_room
              (seat "u1" "ann" human 3 0) eq_refl eq_refl eq_refl) as (_ & _ & H).
  exact H.
Defined.

Lemma started_game_is_stuck_witness :
  exists lobby' p,
    lobbies started !! 0%nat = Some lobby' /\
    players lobby' !! 0%nat = Some p /\
    forall ans rand',
      submit_answer Wiring.io started arena (p_id p) ans rand' = (started, server_error).
Proof.
  destruct created_can_start as [lobby Hcan].
  destruct (started_game_is_stuck created arena "u1" no_draws no_draws 0 lobby Hcan)
    as (lobby' & p & question & Hfind & _ & _ & Hp & _ & H).
  exists lobby', p. split; [|split; [exact Hp | exact H]].
  now apply findOne_Some in Hfind.
Defined.

Lemma buy_item_twice_rejected_witness :
  snd (buy_item (fst (buy_item empty_world "u1" cape)) "u1" cape) =
    reply 400 (Msg "You already own this item.").
Proof.
  erewrite (buy_item_twice_rejected empty_world "u1" cape);
    [reflexivity | vm_compute; reflexivity | reflexivity].
Defined.

Lemma update_penalty_overrides_witness :
  lobbies (fst (update_penalty empty_world "u1" 7 None)) = [].
Proof.
  destruct (update_penalty_overrides empty_world "u1" 7 None ann eq_refl)
    as (_ & _ & H).
  exact H.
Defined.

Lemma timer_counter_saturates_witness :
  (warningCount <$>
     users (fold_left (idle_once "u1")
              [(1000, session); (2000, session); (3000, session); (4000, session)]
              empty_world) !! "u1") = Some 2.
Proof.
  destruct (timer_counter_saturates empty_world "u1" ann
              [(1000, session); (2000, session); (3000, session); (4000, session)]
              eq_refl ltac:(simpl; lia)) as (H & _).
  rewrite H. reflexivity.
Defined.

Lemma step_keeps_settings_witness :
  exists l', In l' (lobbies created) /\ gameStarted l' = false.
Proof.
  eexists. split; [vm_compute; left; reflexivity|].
  edestruct (step_keeps_settings empty_world created)
    as [(l & Hin & _) | [Hst _]];
    [exact (step_create Wiring.io empty_world 0 "u1" "ann" ranked_req "abc" no_draws)
    | vm_compute; left; reflexivity | destruct Hin | exact Hst].
Defined.

Lemma reachable_unique_ids_witness : NoDup (map lobbyId (lobbies started)).
Proof. exact (proj1 (reachable_unique_ids started started_reachable)). Defined.

Lemma reachable_deck_witness :
  exists l, In l (lobbies started) /\ length (questions l) = 5%nat.
Proof.
  edestruct (reachable_deck started) as [Hlen _];
    [exact started_reachable | vm_compute; left; reflexivity | reflexivity |].
  eexists. split; [|exact Hlen]. vm_compute. left. reflexivity.
Defined.

Lemma reachable_lives_witness :
  exists l, In l (lobbies started) /\
    (Forall (fun p => 0 < p_lives p) (players l) \/
     Forall (fun p => p_lives p <= 0) (players l)).
Proof.
  eexists. split; [vm_compute; left; reflexivity|].
  eapply (reachable_lives started);
    [exact started_reachable | vm_compute; left; reflexivity | reflexivity].
Defined.

Lemma leave_strands_turn_witness :
  snd (submit_answer Wiring.io
         (fst (leave_lobby Wiring.io (world_of trio_last_seat) "L" "u1"))
         "L" "u3" "4" 0) = server_error.
Proof.
  rewrite (leave_strands_turn (world_of trio_last_seat) "L" "u1" 0 trio_last_seat);
    [reflexivity | reflexivity | reflexivity | reflexivity | discriminate
    | reflexivity | discriminate | reflexivity].
Defined.

Lemma send_chat_posts_witness :
  send_chat Wiring.io (world_of duel) 42 "L" "u9" "eve" "" =
    (world_of duel, server_error).
Proof.
  destruct (send_chat_posts (world_of duel) 42 "L" "u9" "eve" "" 0 duel eq_refl)
    as [_ H].
  exact (H eq_refl).
Defined.

End MoreSamples.
